(** * TabCap: the tab-limit background script, embedded and verified

    A shallow embedding of the extension's background script
    (the tab accountant, the enforcement handlers, the stats store, the
    corral and the inactivity pass) together with the properties the
    specification states about them.

    Modelling conventions.
    - JavaScript numbers that hold counts, identifiers and timestamps are
      integers ([Z]); array lengths are [Z.of_nat (List.length _)].
    - JavaScript strings are [string]; [toLowerCase] is modelled on the
      ASCII letters.
    - A value that may be [undefined]/[null] is an [option].
    - [Map] and [Set] objects of the script are [gmap] and [gset].
    - The browser is a record (open tabs, stored keys, next tab id); every
      call the script makes on it is appended to a trace, so that "no tab
      was closed", "nothing was written" are statements about the trace.
    - A handler runs from its first to its last statement on one world; the
      interleaving of two handlers at an [await] is not modelled.
    - [tabs.remove] and [tabs.get] reject exactly when the tab is not open;
      storage calls and [tabs.create] resolve.
    - [new URL(_).hostname] belongs to the host: it is a parameter of the
      development (class [UrlParser]). *)

From stdpp Require Import gmap strings list sorting.
From Stdlib Require Import ZArith Ascii String Lia.

Local Open Scope Z_scope.

(** ** Strings as the script uses them *)

Module JsString.

(** [s.startsWith(p)] *)
Definition startsWith (s p : string) : bool := String.prefix p s.

(** [s.slice(n)]: the string without its first [n] characters. *)
Fixpoint slice (n : nat) (s : string) : string :=
  match n, s with
  | O, _ => s
  | S _, EmptyString => EmptyString
  | S n', String _ s' => slice n' s'
  end.

(** [s.endsWith(x)]: the last [length x] characters of [s] are [x]. *)
Definition endsWith (s x : string) : bool :=
  (String.length x <=? String.length s)%nat
  && String.eqb (slice (String.length s - String.length x) s) x.

Definition lower_ascii (c : ascii) : ascii :=
  let n := nat_of_ascii c in
  if ((65 <=? n) && (n <=? 90))%nat then ascii_of_nat (n + 32) else c.

(** [s.toLowerCase()] on ASCII. *)
Fixpoint toLowerCase (s : string) : string :=
  match s with
  | EmptyString => EmptyString
  | String c s' => String (lower_ascii c) (toLowerCase s')
  end.

(** [s.replace(/^www\./, "")] *)
Definition strip_www (s : string) : string :=
  if startsWith s "www." then slice 4 s else s.

(** "falsy" test on an optional string: [!s]. *)
Definition falsy (s : option string) : bool :=
  match s with
  | None => true
  | Some u => String.eqb u ""
  end.

(** [s || d] on an optional string. *)
Definition or_else (s : option string) (d : string) : string :=
  match s with
  | None => d
  | Some u => if String.eqb u "" then d else u
  end.

End JsString.

Import JsString.

(** ** The host's URL parser *)

(** [url_hostname u] is [Some h] when [new URL(u)] succeeds with
    [hostname] [h], and [None] when the constructor throws. *)
Class UrlParser := url_hostname : string -> option string.

(** A small reference parser, used to run the definitions on examples:
    [scheme://host] followed by the end of the string or one of [/ ? # :].
    The theorems below hold for every parser. *)
Module SimpleUrl.

Fixpoint after_scheme (s : string) : option string :=
  match s with
  | EmptyString => None
  | String ":"%char (String "/"%char (String "/"%char rest)) => Some rest
  | String _ s' => after_scheme s'
  end.

Fixpoint host_part (s : string) : string :=
  match s with
  | EmptyString => EmptyString
  | String c s' =>
      if (Ascii.eqb c "/" || Ascii.eqb c "?" || Ascii.eqb c "#" || Ascii.eqb c ":")%char
      then EmptyString
      else String c (host_part s')
  end.

Definition hostname (u : string) : option string :=
  match after_scheme u with
  | None => None
  | Some rest => Some (toLowerCase (host_part rest))
  end.

End SimpleUrl.

Definition simple_parser : UrlParser := SimpleUrl.hostname.

(** ** Data model *)

Record Tab := mkTab {
  tab_id : Z;
  tab_windowId : Z;
  tab_url : option string;
  tab_title : option string;
  tab_favIconUrl : option string;
  tab_active : bool;
  tab_pinned : bool;
  tab_audible : bool;
}.

Record Settings := mkSettings {
  enabled : bool;
  maxTabs : Z;
  globalLimit : bool;
  allowlistEnabled : bool;
  allowlist : list string;
  inactiveEnabled : bool;
  inactiveMinutes : Z;
  protectPinned : bool;
  protectAudible : bool;
  protectAllowlist : bool;
  minTabs : option Z;
  corralMax : Z;
  corralExpireHours : Z;
  debounceDelay : option Z;
  wrangleOption : string;
}.

Definition MAX_TABS : Z := 3.

Definition DEFAULT_SETTINGS : Settings := {|
  enabled := true;
  maxTabs := MAX_TABS;
  globalLimit := false;
  allowlistEnabled := false;
  allowlist := [];
  inactiveEnabled := false;
  inactiveMinutes := 30;
  protectPinned := true;
  protectAudible := true;
  protectAllowlist := true;
  minTabs := Some 5;
  corralMax := 100;
  corralExpireHours := 24;
  debounceDelay := Some 1;
  wrangleOption := "exactURLMatch";
|}.

Record Stats := mkStats {
  currentStreak : Z;
  bestStreak : Z;
  blockedToday : Z;
  blockedWeek : Z;
  blockedTotal : Z;
  inactiveClosed : Z;
  lastActiveDate : option string;
  lastBlockDate : option string;
  weekStartDate : option string;
}.

Definition DEFAULT_STATS : Stats := {|
  currentStreak := 0;
  bestStreak := 0;
  blockedToday := 0;
  blockedWeek := 0;
  blockedTotal := 0;
  inactiveClosed := 0;
  lastActiveDate := None;
  lastBlockDate := None;
  weekStartDate := None;
|}.

(** What one reading of the host clock gives a handler: [Date.now()],
    and the date strings of today, of yesterday and of the start of the
    current week ([getWeekStart]). *)
Record Clock := mkClock {
  now : Z;
  today : string;
  yesterday : string;
  weekStart : string;
}.

Record CorralEntry := mkEntry {
  ce_url : string;
  ce_title : string;
  ce_favIconUrl : string;
  ce_closedAt : Z;
}.

Record Pending := mkPending {
  p_windowId : Z;
  p_timestamp : Z;
}.

Definition PENDING_TIMEOUT : Z := 300.

(** ** Tab accountant *)

(** [s.toLowerCase().replace(/^www\./, "")], applied to the hostname and to
    every allowlist entry. *)
Definition clean (s : string) : string := strip_www (toLowerCase s).

(** The comparison of [isUrlAllowed] as a proposition:
    [hostname === cleanDomain || hostname.endsWith("." + cleanDomain)]. *)
Definition host_matches (hostname cleanDomain : string) : Prop :=
  hostname = cleanDomain \/ exists p, hostname = p +:+ "." +:+ cleanDomain.

Section Accountant.
Context `{UrlParser}.

Definition isUrlAllowed (url : option string) (allowlist : option (list string)) : bool :=
  match url, allowlist with
  | None, _ => false
  | _, None => false
  | Some u, Some l =>
      if String.eqb u "" then false
      else if (Z.of_nat (List.length l) =? 0) then false
      else
        match url_hostname u with
        | None => false
        | Some h =>
            let hostname := clean h in
            existsb (fun domain =>
                       let cleanDomain := clean domain in
                       String.eqb hostname cleanDomain
                       || endsWith hostname ("." +:+ cleanDomain))
                    l
        end
  end.

Definition isRealUrl (url : option string) : bool :=
  match url with
  | None => false
  | Some u =>
      if String.eqb u "" then false
      else if String.eqb u "about:blank" || String.eqb u "about:newtab" then false
      else if startsWith u "safari-resource:" then false
      else if startsWith u "favorites://" then false
      else startsWith u "http://" || startsWith u "https://"
  end.

Definition isInternalUrl (url : option string) : bool :=
  match url with
  | None => true
  | Some u =>
      if String.eqb u "" then true
      else if String.eqb u "about:blank" || String.eqb u "about:newtab" then true
      else if startsWith u "about:" then true
      else if startsWith u "safari-resource:" then true
      else if startsWith u "safari-web-extension:" then true
      else if startsWith u "favorites://" then true
      else if startsWith u "chrome://" then true
      else false
  end.

(** [browser.tabs.query({ windowId })] and [browser.tabs.query({})] *)
Definition query_window (tabs : list Tab) (windowId : Z) : list Tab :=
  List.filter (fun t => tab_windowId t =? windowId) tabs.

Definition query_all (tabs : list Tab) : list Tab := tabs.

Definition counted (settings : Settings) (tabs : list Tab) : Z :=
  if allowlistEnabled settings && (0 <? Z.of_nat (List.length (allowlist settings)))
  then Z.of_nat (List.length (List.filter
                           (fun tab => negb (isUrlAllowed (tab_url tab) (Some (allowlist settings))))
                           tabs))
  else Z.of_nat (List.length tabs).

(** The [settings] argument may be absent ([settings && ...]). *)
Definition getWindowTabCount (host_tabs : list Tab) (windowId : Z) (settings : option Settings) : Z :=
  let tabs := query_window host_tabs windowId in
  match settings with
  | Some s => counted s tabs
  | None => Z.of_nat (List.length tabs)
  end.

Definition getGlobalTabCount (host_tabs : list Tab) (settings : option Settings) : Z :=
  let tabs := query_all host_tabs in
  match settings with
  | Some s => counted s tabs
  | None => Z.of_nat (List.length tabs)
  end.

Definition getCurrentTabCount (host_tabs : list Tab) (windowId : Z) (settings : Settings) : Z :=
  if globalLimit settings
  then getGlobalTabCount host_tabs (Some settings)
  else getWindowTabCount host_tabs windowId (Some settings).

End Accountant.

(** ** The world: the host (browser) and the script's own state *)

Inductive StorageKey := KSettings | KStats | KTabCorral | KTabActivity.

Inductive TimerCallback :=
  | CheckPendingTab (tabId : Z)
  | ForgetRestored (tabId : Z).

Inductive BadgeText :=
  | BadgeOff
  | BadgeBlank
  | BadgeCount (count max : Z).

(** The calls a handler makes on the host, in the order it makes them
    (the newest call is the head of the trace). The badge colour, a
    floating-point ratio test, is not modelled. *)
Inductive HostCall :=
  | TabsRemove (tabId : Z) (resolved : bool)
  | TabsCreate (url : string) (newId : Z)
  | StorageSet (key : StorageKey)
  | SendTabCount (count : Z)
  | SetBadgeText (text : BadgeText)
  | SetTimeout (cb : TimerCallback) (ms : Z).

Record World := mkWorld {
  (* host *)
  w_tabs : list Tab;
  w_currentWindow : Z;
  w_nextTabId : Z;
  w_settings : Settings;
  w_stats : Stats;
  w_tabCorral : list CorralEntry;
  w_tabActivity : gmap Z Z;
  (* script *)
  pendingTabs : gmap Z Pending;
  allowlistTabs : gset Z;
  corralRestoredTabs : gset Z;
  tabLastAccessed : gmap Z Z;
  activatedDebounceTabId : option Z;
  persistDirty : bool;
  (* log *)
  w_trace : list HostCall;
}.

Definition set_tabs (v : list Tab) (w : World) : World :=
  mkWorld v (w_currentWindow w) (w_nextTabId w) (w_settings w) (w_stats w)
          (w_tabCorral w) (w_tabActivity w) (pendingTabs w) (allowlistTabs w)
          (corralRestoredTabs w) (tabLastAccessed w) (activatedDebounceTabId w)
          (persistDirty w) (w_trace w).

Definition set_nextTabId (v : Z) (w : World) : World :=
  mkWorld (w_tabs w) (w_currentWindow w) v (w_settings w) (w_stats w)
          (w_tabCorral w) (w_tabActivity w) (pendingTabs w) (allowlistTabs w)
          (corralRestoredTabs w) (tabLastAccessed w) (activatedDebounceTabId w)
          (persistDirty w) (w_trace w).

Definition set_stats (v : Stats) (w : World) : World :=
  mkWorld (w_tabs w) (w_currentWindow w) (w_nextTabId w) (w_settings w) v
          (w_tabCorral w) (w_tabActivity w) (pendingTabs w) (allowlistTabs w)
          (corralRestoredTabs w) (tabLastAccessed w) (activatedDebounceTabId w)
          (persistDirty w) (w_trace w).

Definition set_tabCorral (v : list CorralEntry) (w : World) : World :=
  mkWorld (w_tabs w) (w_currentWindow w) (w_nextTabId w) (w_settings w) (w_stats w)
          v (w_tabActivity w) (pendingTabs w) (allowlistTabs w)
          (corralRestoredTabs w) (tabLastAccessed w) (activatedDebounceTabId w)
          (persistDirty w) (w_trace w).

Definition set_tabActivity (v : gmap Z Z) (w : World) : World :=
  mkWorld (w_tabs w) (w_currentWindow w) (w_nextTabId w) (w_settings w) (w_stats w)
          (w_tabCorral w) v (pendingTabs w) (allowlistTabs w)
          (corralRestoredTabs w) (tabLastAccessed w) (activatedDebounceTabId w)
          (persistDirty w) (w_trace w).

Definition set_pendingTabs (v : gmap Z Pending) (w : World) : World :=
  mkWorld (w_tabs w) (w_currentWindow w) (w_nextTabId w) (w_settings w) (w_stats w)
          (w_tabCorral w) (w_tabActivity w) v (allowlistTabs w)
          (corralRestoredTabs w) (tabLastAccessed w) (activatedDebounceTabId w)
          (persistDirty w) (w_trace w).

Definition set_allowlistTabs (v : gset Z) (w : World) : World :=
  mkWorld (w_tabs w) (w_currentWindow w) (w_nextTabId w) (w_settings w) (w_stats w)
          (w_tabCorral w) (w_tabActivity w) (pendingTabs w) v
          (corralRestoredTabs w) (tabLastAccessed w) (activatedDebounceTabId w)
          (persistDirty w) (w_trace w).

Definition set_corralRestoredTabs (v : gset Z) (w : World) : World :=
  mkWorld (w_tabs w) (w_currentWindow w) (w_nextTabId w) (w_settings w) (w_stats w)
          (w_tabCorral w) (w_tabActivity w) (pendingTabs w) (allowlistTabs w)
          v (tabLastAccessed w) (activatedDebounceTabId w)
          (persistDirty w) (w_trace w).

Definition set_tabLastAccessed (v : gmap Z Z) (w : World) : World :=
  mkWorld (w_tabs w) (w_currentWindow w) (w_nextTabId w) (w_settings w) (w_stats w)
          (w_tabCorral w) (w_tabActivity w) (pendingTabs w) (allowlistTabs w)
          (corralRestoredTabs w) v (activatedDebounceTabId w)
          (persistDirty w) (w_trace w).

Definition set_persistDirty (v : bool) (w : World) : World :=
  mkWorld (w_tabs w) (w_currentWindow w) (w_nextTabId w) (w_settings w) (w_stats w)
          (w_tabCorral w) (w_tabActivity w) (pendingTabs w) (allowlistTabs w)
          (corralRestoredTabs w) (tabLastAccessed w) (activatedDebounceTabId w)
          v (w_trace w).

Definition set_trace (v : list HostCall) (w : World) : World :=
  mkWorld (w_tabs w) (w_currentWindow w) (w_nextTabId w) (w_settings w) (w_stats w)
          (w_tabCorral w) (w_tabActivity w) (pendingTabs w) (allowlistTabs w)
          (corralRestoredTabs w) (tabLastAccessed w) (activatedDebounceTabId w)
          (persistDirty w) v.

(** ** A state monad over the world *)

Definition M (A : Type) : Type := World -> A * World.

(** The monad operations, under stdpp's notations [x ← m; k] and [m ;; k]. *)
Global Instance M_ret : MRet M := fun A a w => (a, w).

Global Instance M_bind : MBind M :=
  fun A B k m w => let (a, w') := m w in k a w'.

Definition gets {A} (f : World -> A) : M A := fun w => (f w, w).
Definition modify (f : World -> World) : M unit := fun w => (tt, f w).
Definition call (c : HostCall) : M unit :=
  modify (fun w => set_trace (c :: w_trace w) w).

(** A conditional statement without a value: [if (c) { m }]. *)
Definition when (c : bool) (m : M unit) : M unit := if c then m else mret tt.

Definition run {A} (m : M A) (w : World) : World := snd (m w).
Definition result {A} (m : M A) (w : World) : A := fst (m w).

(** *** Host calls *)

Definition getSettings : M Settings := gets w_settings.

(** [browser.tabs.query({ active: true, currentWindow: true })], first tab. *)
Definition query_active_tab : M (option Tab) :=
  gets (fun w => head (List.filter
                         (fun t => tab_active t && (tab_windowId t =? w_currentWindow w))
                         (w_tabs w))).

(** [browser.tabs.get(tabId)]: [None] when the promise rejects. *)
Definition tabs_get (tabId : Z) : M (option Tab) :=
  gets (fun w => List.find (fun t => tab_id t =? tabId) (w_tabs w)).

Definition is_open (tabId : Z) (tabs : list Tab) : bool :=
  existsb (fun t => tab_id t =? tabId) tabs.

(** [browser.tabs.remove(tabId)]: [false] when the promise rejects. *)
Definition tabs_remove (tabId : Z) : M bool :=
  fun w =>
    if is_open tabId (w_tabs w)
    then (true, set_trace (TabsRemove tabId true :: w_trace w)
                  (set_tabs (List.filter (fun t => negb (tab_id t =? tabId)) (w_tabs w)) w))
    else (false, set_trace (TabsRemove tabId false :: w_trace w) w).

(** [browser.tabs.create({ url, active: false })]: the new tab's id. *)
Definition tabs_create (url : string) : M Z :=
  fun w =>
    let id := w_nextTabId w in
    let tab := mkTab id (w_currentWindow w) (Some url) None None false false false in
    (id, set_trace (TabsCreate url id :: w_trace w)
           (set_nextTabId (id + 1) (set_tabs (w_tabs w ++ [tab]) w))).

(** ** Stats store *)

Definition with_blockedToday (v : Z) (s : Stats) : Stats :=
  mkStats (currentStreak s) (bestStreak s) v (blockedWeek s) (blockedTotal s)
          (inactiveClosed s) (lastActiveDate s) (lastBlockDate s) (weekStartDate s).

Definition with_blockedWeek (v : Z) (s : Stats) : Stats :=
  mkStats (currentStreak s) (bestStreak s) (blockedToday s) v (blockedTotal s)
          (inactiveClosed s) (lastActiveDate s) (lastBlockDate s) (weekStartDate s).

Definition with_blockedTotal (v : Z) (s : Stats) : Stats :=
  mkStats (currentStreak s) (bestStreak s) (blockedToday s) (blockedWeek s) v
          (inactiveClosed s) (lastActiveDate s) (lastBlockDate s) (weekStartDate s).

Definition with_inactiveClosed (v : Z) (s : Stats) : Stats :=
  mkStats (currentStreak s) (bestStreak s) (blockedToday s) (blockedWeek s) (blockedTotal s)
          v (lastActiveDate s) (lastBlockDate s) (weekStartDate s).

Definition with_currentStreak (v : Z) (s : Stats) : Stats :=
  mkStats v (bestStreak s) (blockedToday s) (blockedWeek s) (blockedTotal s)
          (inactiveClosed s) (lastActiveDate s) (lastBlockDate s) (weekStartDate s).

Definition with_bestStreak (v : Z) (s : Stats) : Stats :=
  mkStats (currentStreak s) v (blockedToday s) (blockedWeek s) (blockedTotal s)
          (inactiveClosed s) (lastActiveDate s) (lastBlockDate s) (weekStartDate s).

Definition with_lastActiveDate (v : option string) (s : Stats) : Stats :=
  mkStats (currentStreak s) (bestStreak s) (blockedToday s) (blockedWeek s) (blockedTotal s)
          (inactiveClosed s) v (lastBlockDate s) (weekStartDate s).

Definition with_lastBlockDate (v : option string) (s : Stats) : Stats :=
  mkStats (currentStreak s) (bestStreak s) (blockedToday s) (blockedWeek s) (blockedTotal s)
          (inactiveClosed s) (lastActiveDate s) v (weekStartDate s).

Definition with_weekStartDate (v : option string) (s : Stats) : Stats :=
  mkStats (currentStreak s) (bestStreak s) (blockedToday s) (blockedWeek s) (blockedTotal s)
          (inactiveClosed s) (lastActiveDate s) (lastBlockDate s) v.

(** [stored === date] for a stored date that may be [null]. *)
Definition date_is (stored : option string) (date : string) : bool :=
  match stored with
  | None => false
  | Some d => String.eqb d date
  end.

Definition updateStreak (clock : Clock) (stats : Stats) : Stats :=
  let stats :=
    if falsy (lastActiveDate stats) then
      with_lastActiveDate (Some (today clock)) (with_currentStreak 1 stats)
    else if date_is (lastActiveDate stats) (today clock) then
      stats
    else if date_is (lastActiveDate stats) (yesterday clock) then
      with_lastActiveDate (Some (today clock))
        (with_currentStreak (currentStreak stats + 1) stats)
    else
      with_lastActiveDate (Some (today clock)) (with_currentStreak 1 stats) in
  if bestStreak stats <? currentStreak stats
  then with_bestStreak (currentStreak stats) stats
  else stats.

(** [getStats] on the stored stats (already merged with [DEFAULT_STATS]). *)
Definition getStats_of (clock : Clock) (stored : Stats) : Stats :=
  let stats := stored in
  let stats :=
    if negb (date_is (lastBlockDate stats) (today clock))
    then with_blockedToday 0 stats else stats in
  let stats :=
    if negb (date_is (weekStartDate stats) (weekStart clock))
    then with_weekStartDate (Some (weekStart clock)) (with_blockedWeek 0 stats)
    else stats in
  updateStreak clock stats.

Definition getStats (clock : Clock) : M Stats :=
  gets (fun w => getStats_of clock (w_stats w)).

Definition saveStats (stats : Stats) : M unit :=
  modify (set_stats stats) ;; call (StorageSet KStats).

(** The assignments of [incrementBlocked] between its read and its write. *)
Definition count_block (clock : Clock) (stats : Stats) : Stats :=
  let stats := with_blockedToday (blockedToday stats + 1) stats in
  let stats := with_blockedWeek (blockedWeek stats + 1) stats in
  let stats := with_blockedTotal (blockedTotal stats + 1) stats in
  let stats := with_lastBlockDate (Some (today clock)) stats in
  updateStreak clock stats.

Definition incrementBlocked (clock : Clock) : M Stats :=
  stats ← getStats clock;
  let stats := count_block clock stats in
  saveStats stats ;;
  mret stats.

Definition incrementInactiveClosed (clock : Clock) (count : Z) : M Stats :=
  stats ← getStats clock;
  let stats := with_inactiveClosed (inactiveClosed stats + count) stats in
  saveStats stats ;;
  mret stats.

(** ** Corral *)

(** [arr.findIndex(p)]: the index of the first match, or -1. *)
Fixpoint findIndex {A} (p : A -> bool) (l : list A) : Z :=
  match l with
  | [] => -1
  | x :: l' =>
      if p x then 0
      else let i := findIndex p l' in if i <? 0 then -1 else i + 1
  end.

(** [arr.splice(start, 1)]: the array without the element at [start]
    (a negative [start] counts from the end, as in JavaScript). *)
Definition splice1 {A} (start : Z) (l : list A) : list A :=
  let len := Z.of_nat (List.length l) in
  let s := if start <? 0 then Z.max (len + start) 0 else Z.min start len in
  take (Z.to_nat s) l ++ drop (S (Z.to_nat s)) l.

(** [arr[index]] *)
Definition nth_Z {A} (index : Z) (l : list A) : option A :=
  if index <? 0 then None else l !! Z.to_nat index.

Definition new_entry (clock : Clock) (tab : Tab) : CorralEntry := {|
  ce_url := or_else (tab_url tab) "";
  ce_title := or_else (tab_title tab) "Untitled";
  ce_favIconUrl := or_else (tab_favIconUrl tab) "";
  ce_closedAt := now clock;
|}.

Section Corral.
Context `{UrlParser}.

(** [new URL(u).hostname] of a tab's url; [undefined] does not parse. *)
Definition hostname_of (url : option string) : option string :=
  match url with
  | None => None
  | Some u => url_hostname u
  end.

(** One turn of the loop of [addToCorral]. *)
Definition corral_step (clock : Clock) (wrangle : string)
           (corral : list CorralEntry) (tab : Tab) : list CorralEntry :=
  let corral :=
    if String.eqb wrangle "exactURLMatch" then
      let existingIdx :=
        findIndex (fun t => match tab_url tab with
                            | Some u => String.eqb (ce_url t) u
                            | None => false
                            end) corral in
      if -1 <? existingIdx then splice1 existingIdx corral else corral
    else if String.eqb wrangle "hostnameAndTitleMatch" then
      match hostname_of (tab_url tab) with
      | None => corral
      | Some tabHostname =>
          let existingIdx :=
            findIndex (fun t => match url_hostname (ce_url t) with
                                | Some h => String.eqb h tabHostname
                                            && String.eqb (ce_title t)
                                                 (or_else (tab_title tab) "Untitled")
                                | None => false
                                end) corral in
          if -1 <? existingIdx then splice1 existingIdx corral else corral
      end
    else corral in
  new_entry clock tab :: corral.

(** [settings.corralMax || 100] *)
Definition corral_limit (settings : Settings) : Z :=
  if corralMax settings =? 0 then 100 else corralMax settings.

(** The corral [addToCorral] computes, or [None] when the assignment
    [corral.length = max] throws (a negative [max]). *)
Definition corral_after (clock : Clock) (settings : Settings)
           (stored : list CorralEntry) (tabs : list Tab) : option (list CorralEntry) :=
  let wrangleOption := or_else (Some (wrangleOption settings)) "exactURLMatch" in
  let corral := fold_left (corral_step clock wrangleOption) tabs stored in
  let max := corral_limit settings in
  if max <? Z.of_nat (List.length corral)
  then if max <? 0 then None else Some (take (Z.to_nat max) corral)
  else Some corral.

(** [addToCorral]: an exception anywhere abandons the call silently. *)
Definition addToCorral (clock : Clock) (tabs : list Tab) : M unit :=
  settings ← getSettings;
  stored ← gets w_tabCorral;
  match corral_after clock settings stored tabs with
  | Some corral => modify (set_tabCorral corral) ;; call (StorageSet KTabCorral)
  | None => mret tt
  end.

Definition getCorral : M (list CorralEntry) := gets w_tabCorral.

Definition restoreFromCorral (index : Z) : M bool :=
  corral ← gets w_tabCorral;
  if (index <? 0) || (Z.of_nat (List.length corral) <=? index) then mret false
  else
    match nth_Z index corral with
    | None => mret false
    | Some entry =>
        modify (set_tabCorral (splice1 index corral)) ;;
        call (StorageSet KTabCorral) ;;
        newTabId ← tabs_create (ce_url entry);
        modify (fun w => set_corralRestoredTabs ({[newTabId]} ∪ corralRestoredTabs w) w) ;;
        call (SetTimeout (ForgetRestored newTabId) 5000) ;;
        mret true
    end.

End Corral.

(** ** Enforcement policy *)

Section Enforcement.
Context `{UrlParser}.

Definition currentTabCount (windowId : Z) (settings : Settings) : M Z :=
  gets (fun w => getCurrentTabCount (w_tabs w) windowId settings).

Definition updateBadge : M unit :=
  settings ← getSettings;
  if negb (enabled settings) then call (SetBadgeText BadgeOff)
  else
    activeTab ← query_active_tab;
    match activeTab with
    | None => call (SetBadgeText BadgeBlank)
    | Some activeTab =>
        count ← currentTabCount (tab_windowId activeTab) settings;
        call (SetBadgeText (BadgeCount count (maxTabs settings)))
    end.

Definition broadcastTabCount : M unit :=
  settings ← getSettings;
  activeTab ← query_active_tab;
  match activeTab with
  | None => mret tt
  | Some activeTab =>
      count ← currentTabCount (tab_windowId activeTab) settings;
      call (SendTabCount count) ;;
      updateBadge
  end.

Definition track_allowlisted (tabId : Z) : M unit :=
  modify (fun w => set_allowlistTabs ({[tabId]} ∪ allowlistTabs w) w).

Definition untrack_allowlisted (tabId : Z) : M unit :=
  modify (fun w => set_allowlistTabs (allowlistTabs w ∖ {[tabId]}) w).

Definition forget_pending (tabId : Z) : M unit :=
  modify (fun w => set_pendingTabs (delete tabId (pendingTabs w)) w).

(** [closeTab]: when [tabs.remove] rejects, the counters are not touched. *)
Definition closeTab (clock : Clock) (tabId : Z) : M unit :=
  forget_pending tabId ;;
  untrack_allowlisted tabId ;;
  removed ← tabs_remove tabId;
  when removed (incrementBlocked clock ;; mret tt).

Definition checkPendingTab (clock : Clock) (tabId : Z) : M unit :=
  pending ← gets (fun w => pendingTabs w !! tabId);
  match pending with
  | None => mret tt
  | Some pending =>
      if now clock - p_timestamp pending <? PENDING_TIMEOUT then mret tt
      else
        forget_pending tabId ;;
        settings ← getSettings;
        if negb (enabled settings) then mret tt
        else if negb (allowlistEnabled settings) then mret tt
        else
          tab ← tabs_get tabId;
          match tab with
          | None => mret tt
          | Some tab =>
              if isRealUrl (tab_url tab)
                 && isUrlAllowed (tab_url tab) (Some (allowlist settings))
              then track_allowlisted tabId
              else
                tabCount ← currentTabCount (tab_windowId tab) settings;
                if tabCount <=? maxTabs settings then mret tt
                else closeTab clock tabId
          end
  end.

Definition handleTabCreated (clock : Clock) (tab : Tab) : M unit :=
  settings ← getSettings;
  if negb (enabled settings) then mret tt
  else
    restored ← gets (fun w => bool_decide (tab_id tab ∈ corralRestoredTabs w));
    if restored : bool then broadcastTabCount
    else
      when (allowlistEnabled settings && isRealUrl (tab_url tab)
            && isUrlAllowed (tab_url tab) (Some (allowlist settings)))
           (track_allowlisted (tab_id tab)) ;;
      tabCount ← currentTabCount (tab_windowId tab) settings;
      call (SendTabCount tabCount) ;;
      updateBadge ;;
      if tabCount <=? maxTabs settings then mret tt
      else if allowlistEnabled settings then
        if isRealUrl (tab_url tab) then
          if isUrlAllowed (tab_url tab) (Some (allowlist settings)) then mret tt
          else closeTab clock (tab_id tab)
        else
          modify (fun w => set_pendingTabs
                             (<[tab_id tab := mkPending (tab_windowId tab) (now clock)]>
                                (pendingTabs w)) w) ;;
          call (SetTimeout (CheckPendingTab (tab_id tab)) (PENDING_TIMEOUT + 50))
      else closeTab clock (tab_id tab).

(** [changeUrl] is [changeInfo.url]; [tab] is the handler's third argument. *)
Definition handleTabUpdated (clock : Clock) (tabId : Z)
           (changeUrl : option string) (tab : Tab) : M unit :=
  let url := if falsy changeUrl then tab_url tab else changeUrl in
  if falsy url then mret tt
  else if negb (isRealUrl url) then mret tt
  else
    settings ← getSettings;
    if negb (enabled settings) then mret tt
    else if negb (allowlistEnabled settings) then mret tt
    else
      let isNowAllowlisted := isUrlAllowed url (Some (allowlist settings)) in
      wasAllowlisted ← gets (fun w => bool_decide (tabId ∈ allowlistTabs w));
      isPending ← gets (fun w => bool_decide (is_Some (pendingTabs w !! tabId)));
      if isPending : bool then
        forget_pending tabId ;;
        if isNowAllowlisted then track_allowlisted tabId
        else
          tabCount ← currentTabCount (tab_windowId tab) settings;
          when (maxTabs settings <? tabCount) (closeTab clock tabId)
      else if isNowAllowlisted && negb wasAllowlisted then
        track_allowlisted tabId ;;
        broadcastTabCount
      else if negb isNowAllowlisted && wasAllowlisted then
        untrack_allowlisted tabId ;;
        tabCount ← currentTabCount (tab_windowId tab) settings;
        if maxTabs settings <? tabCount then closeTab clock tabId
        else broadcastTabCount
      else mret tt.

End Enforcement.

(** ** Inactivity reaper *)

(** An element of [tabsToClose]. *)
Record Candidate := mkCandidate {
  c_id : Z;
  c_windowId : Z;
  c_elapsed : Z;
}.

(** An element of [tabsToActuallyClose]. *)
Record Closing := mkClosing {
  cl_id : Z;
  cl_windowId : Z;
  cl_tab : Tab;
}.

(** [tabsToClose.sort((a, b) => b.elapsed - a.elapsed)]: a stable sort,
    longest idle first. *)
Fixpoint insert_by_elapsed (c : Candidate) (l : list Candidate) : list Candidate :=
  match l with
  | [] => [c]
  | d :: l' =>
      if c_elapsed d <=? c_elapsed c then c :: l
      else d :: insert_by_elapsed c l'
  end.

Definition sort_by_elapsed (l : list Candidate) : list Candidate :=
  foldr insert_by_elapsed [] l.

Section Reaper.
Context `{UrlParser}.

(** Timestamps that lie in the future are pulled back to [now]. *)
Definition clamp_future (now : Z) (lastAccessed : gmap Z Z) : gmap Z Z :=
  (fun ts => if now <? ts then now else ts) <$> lastAccessed.

(** [windowTabs]: the tabs of each window, in query order. *)
Definition group_by_window (allTabs : list Tab) : gmap Z (list Tab) :=
  fold_left
    (fun windowTabs tab =>
       let windowTabs :=
         match windowTabs !! tab_windowId tab with
         | None => <[tab_windowId tab := []]> windowTabs
         | Some _ => windowTabs
         end in
       alter (fun tabs => tabs ++ [tab]) (tab_windowId tab) windowTabs)
    allTabs ∅.

(** [Math.max(0, settings.minTabs != null ? settings.minTabs : 5)] *)
Definition effective_minTabs (settings : Settings) : Z :=
  Z.max 0 (match minTabs settings with Some m => m | None => 5 end).

Definition is_debounced (debounce : option Z) (tabId : Z) : bool :=
  match debounce with
  | Some d => d =? tabId
  | None => false
  end.

(** One turn of the scan over [allTabs]: refresh the timestamp of a tab
    that must not be closed, or record the tab as a candidate. *)
Definition scan_step (settings : Settings) (now limitMs : Z) (debounce : option Z)
           (st : gmap Z Z * list Candidate) (tab : Tab) : gmap Z Z * list Candidate :=
  let '(lastAccessedMap, tabsToClose) := st in
  let refresh := (<[tab_id tab := now]> lastAccessedMap, tabsToClose) in
  if tab_active tab then
    if negb (is_debounced debounce (tab_id tab)) then refresh else st
  else if isInternalUrl (tab_url tab) then refresh
  else if protectPinned settings && tab_pinned tab then refresh
  else if protectAudible settings && tab_audible tab then refresh
  else if protectAllowlist settings && allowlistEnabled settings
          && (0 <? Z.of_nat (List.length (allowlist settings)))
          && isUrlAllowed (tab_url tab) (Some (allowlist settings)) then refresh
  else
    match lastAccessedMap !! tab_id tab with
    | None => refresh
    | Some lastAccessed =>
        if lastAccessed =? 0 then refresh
        else
          let elapsed := now - lastAccessed in
          if limitMs <=? elapsed
          then (lastAccessedMap,
                tabsToClose ++ [mkCandidate (tab_id tab) (tab_windowId tab) elapsed])
          else st
    end.

(** A window at or below the floor has all its timestamps refreshed. *)
Definition refresh_small_windows (now minTabs : Z) (windowTabs : gmap Z (list Tab))
           (lastAccessedMap : gmap Z Z) : gmap Z Z :=
  map_fold
    (fun _ tabs acc =>
       if Z.of_nat (List.length tabs) <=? minTabs
       then fold_left (fun acc tab => <[tab_id tab := now]> acc) tabs acc
       else acc)
    lastAccessedMap windowTabs.

(** [windowRemaining.get(windowId) > minTabs]; [undefined] compares false. *)
Definition above_floor (minTabs : Z) (windowRemaining : gmap Z Z) (windowId : Z) : bool :=
  match windowRemaining !! windowId with
  | Some n => minTabs <? n
  | None => false
  end.

(** [windowRemaining.get(windowId) <= minTabs]; [undefined] compares false. *)
Definition at_floor (minTabs : Z) (windowRemaining : gmap Z Z) (windowId : Z) : bool :=
  match windowRemaining !! windowId with
  | Some n => n <=? minTabs
  | None => false
  end.

(** One turn of the loop that fills [tabsToActuallyClose]. A missing
    key stays missing on decrement (in the script it becomes [NaN], which
    compares false like [undefined]). *)
Definition accept_step (now minTabs : Z) (allTabs : list Tab)
           (st : gmap Z Z * gmap Z Z * list Closing) (c : Candidate)
  : gmap Z Z * gmap Z Z * list Closing :=
  let '(windowRemaining, lastAccessedMap, tabsToActuallyClose) := st in
  if at_floor minTabs windowRemaining (c_windowId c)
  then (windowRemaining, <[c_id c := now]> lastAccessedMap, tabsToActuallyClose)
  else
    let tabsToActuallyClose :=
      match List.find (fun t => tab_id t =? c_id c) allTabs with
      | Some tab => tabsToActuallyClose ++ [mkClosing (c_id c) (c_windowId c) tab]
      | None => tabsToActuallyClose
      end in
    (alter (fun n => n - 1) (c_windowId c) windowRemaining,
     lastAccessedMap, tabsToActuallyClose).

(** The decisions of one pass: the new last-accessed map and
    [tabsToActuallyClose]. *)
Definition inactive_plan (settings : Settings) (now : Z) (debounce : option Z)
           (lastAccessedMap : gmap Z Z) (allTabs : list Tab) : gmap Z Z * list Closing :=
  let limitMs := inactiveMinutes settings * 60 * 1000 in
  let lastAccessedMap := clamp_future now lastAccessedMap in
  let windowTabs := group_by_window allTabs in
  let minTabs := effective_minTabs settings in
  let '(lastAccessedMap, tabsToClose) :=
    fold_left (scan_step settings now limitMs debounce) allTabs (lastAccessedMap, []) in
  let tabsToClose := sort_by_elapsed tabsToClose in
  let windowRemaining : gmap Z Z := (fun tabs => Z.of_nat (List.length tabs)) <$> windowTabs in
  let lastAccessedMap := refresh_small_windows now minTabs windowTabs lastAccessedMap in
  let eligibleToClose :=
    List.filter (fun c => above_floor minTabs windowRemaining (c_windowId c)) tabsToClose in
  let '(_, lastAccessedMap, tabsToActuallyClose) :=
    fold_left (accept_step now minTabs allTabs) eligibleToClose
              (windowRemaining, lastAccessedMap, []) in
  (lastAccessedMap, tabsToActuallyClose).

(** [Promise.all] over [browser.tabs.remove]: the number that resolved. *)
Fixpoint remove_all (ids : list Z) : M Z :=
  match ids with
  | [] => mret 0
  | id :: ids' =>
      ok ← tabs_remove id;
      n ← remove_all ids';
      mret ((if ok : bool then 1 else 0) + n)
  end.

Definition persistTabActivityNow : M unit :=
  modify (set_persistDirty true) ;;
  modify (set_persistDirty false) ;;
  modify (fun w => set_tabActivity (tabLastAccessed w) w) ;;
  call (StorageSet KTabActivity).

Definition _doInactiveCheck (clock : Clock) : M unit :=
  settings ← getSettings;
  if negb (inactiveEnabled settings) then mret tt
  else
    lastAccessedMap ← gets tabLastAccessed;
    debounce ← gets activatedDebounceTabId;
    allTabs ← gets w_tabs;
    let '(lastAccessedMap, tabsToActuallyClose) :=
      inactive_plan settings (now clock) debounce lastAccessedMap allTabs in
    modify (set_tabLastAccessed lastAccessedMap) ;;
    if 0 <? Z.of_nat (List.length tabsToActuallyClose) then
      let closedTabs := map cl_tab tabsToActuallyClose in
      modify (fun w => set_tabLastAccessed
                         (fold_left (fun m c => delete (cl_id c) m) tabsToActuallyClose
                                    (tabLastAccessed w)) w) ;;
      successCount ← remove_all (map cl_id tabsToActuallyClose);
      addToCorral clock closedTabs ;;
      incrementInactiveClosed clock successCount ;;
      persistTabActivityNow ;;
      broadcastTabCount ;;
      updateBadge
    else mret tt.

End Reaper.

(** ** Sample data, used to run the definitions *)

Module Sample.

Definition page (id windowId : Z) (url : string) : Tab :=
  mkTab id windowId (Some url) (Some "Page") None false false false.

(** A tab the host reports before its destination is known. *)
Definition blank (id windowId : Z) : Tab :=
  mkTab id windowId None None None false false false.

Definition clock : Clock :=
  mkClock 1000000 "Mon Nov 02 2026" "Sun Nov 01 2026" "Sun Nov 01 2026".

Definition world (tabs : list Tab) (settings : Settings) : World := {|
  w_tabs := tabs;
  w_currentWindow := 1;
  w_nextTabId := 100;
  w_settings := settings;
  w_stats := DEFAULT_STATS;
  w_tabCorral := [];
  w_tabActivity := ∅;
  pendingTabs := ∅;
  allowlistTabs := ∅;
  corralRestoredTabs := ∅;
  tabLastAccessed := ∅;
  activatedDebounceTabId := None;
  persistDirty := false;
  w_trace := [];
|}.

Definition with_allowlist (domains : list string) (s : Settings) : Settings :=
  mkSettings (enabled s) (maxTabs s) (globalLimit s) true domains
             (inactiveEnabled s) (inactiveMinutes s) (protectPinned s)
             (protectAudible s) (protectAllowlist s) (minTabs s) (corralMax s)
             (corralExpireHours s) (debounceDelay s) (wrangleOption s).

Definition with_reaper (minutes : Z) (floor : option Z) (s : Settings) : Settings :=
  mkSettings (enabled s) (maxTabs s) (globalLimit s) (allowlistEnabled s) (allowlist s)
             true minutes (protectPinned s)
             (protectAudible s) (protectAllowlist s) floor (corralMax s)
             (corralExpireHours s) (debounceDelay s) (wrangleOption s).

Definition three_tabs : list Tab :=
  [page 1 1 "https://a.com/"; page 2 1 "https://b.com/"; page 3 1 "https://c.com/"].

End Sample.

(** ** Vocabulary of the statements *)

(** Calls that report state to the toolbar and the popup. *)
Definition is_report (c : HostCall) : Prop :=
  match c with
  | SendTabCount _ | SetBadgeText _ => True
  | _ => False
  end.

(** [w'] is [w] with a few more reports in its trace. *)
Definition reports_only (w w' : World) : Prop :=
  exists evs, w' = set_trace (evs ++ w_trace w) w /\ Forall is_report evs.

(** A call that closes tab [tabId], whether or not the host finds it. *)
Definition is_removal_of (tabId : Z) (c : HostCall) : Prop :=
  match c with
  | TabsRemove i _ => i = tabId
  | _ => True
  end.

(** From [w] to [w'] no tab other than [tabId] was closed: every
    [tabs.remove] issued names [tabId], every other tab is still open, and
    the open tabs are those of [w], with or without [tabId]. *)
Definition closes_only (tabId : Z) (w w' : World) : Prop :=
  (exists evs, w_trace w' = evs ++ w_trace w /\ Forall (is_removal_of tabId) evs)
  /\ (forall t, t ∈ w_tabs w -> tab_id t <> tabId -> t ∈ w_tabs w')
  /\ (w_tabs w' = w_tabs w
      \/ w_tabs w' = List.filter (fun t => negb (tab_id t =? tabId)) (w_tabs w)).

(** Every run of [m] is related by [R] to the world it started from. *)
Definition keeps {A} (R : World -> World -> Prop) (m : M A) : Prop :=
  forall w, R w (snd (m w)).

(** The number of corral entries for one url. *)
Definition count_url (u : string) (corral : list CorralEntry) : nat :=
  List.length (List.filter (fun e => String.eqb (ce_url e) u) corral).

(** The number of entries of [tabsToActuallyClose] in one window. *)
Definition closing_count (windowId : Z) (closings : list Closing) : nat :=
  List.length (List.filter (fun c => cl_windowId c =? windowId) closings).

(** A closing names a tab the host reported, with that tab's window. *)
Definition closing_of (allTabs : list Tab) (c : Closing) : Prop :=
  exists t, t ∈ allTabs /\ tab_id t = cl_id c /\ tab_windowId t = cl_windowId c.

(** The same for a candidate. *)
Definition candidate_of (allTabs : list Tab) (c : Candidate) : Prop :=
  exists t, t ∈ allTabs /\ tab_id t = c_id c /\ tab_windowId t = c_windowId c.

(** The open tabs once the tabs named by [ids] are removed. *)
Definition without (ids : list Z) (tabs : list Tab) : list Tab :=
  List.filter (fun t => negb (existsb (fun i => tab_id t =? i) ids)) tabs.

(** ** Corral expiry *)

(** [cleanExpiredCorral]: entries older than [corralExpireHours] are
    dropped; 0 (or a negative value) means "never". The corral is written
    back only when an entry was dropped. *)
Definition cleanExpiredCorral (clock : Clock) : M unit :=
  settings ← getSettings;
  let expireHours := corralExpireHours settings in
  if (expireHours =? 0) || (expireHours <=? 0) then mret tt
  else
    corral ← gets w_tabCorral;
    if Z.of_nat (List.length corral) =? 0 then mret tt
    else
      let expireMs := expireHours * 60 * 60 * 1000 in
      let filtered :=
        List.filter (fun tab => now clock - ce_closedAt tab <? expireMs) corral in
      if negb (Z.of_nat (List.length filtered) =? Z.of_nat (List.length corral))
      then modify (set_tabCorral filtered) ;; call (StorageSet KTabCorral)
      else mret tt.

(** [a] was closed no earlier than [b]. *)
Definition closed_after (a b : CorralEntry) : Prop :=
  ce_closedAt b <= ce_closedAt a.

(** ** Vocabulary for the inactivity pass *)

(** The tabs the scan of [_doInactiveCheck] skips whatever their age:
    active, internal, or protected by one of the three settings. *)
Definition spared `{UrlParser} (settings : Settings) (tab : Tab) : bool :=
  tab_active tab
  || isInternalUrl (tab_url tab)
  || (protectPinned settings && tab_pinned tab)
  || (protectAudible settings && tab_audible tab)
  || (protectAllowlist settings && allowlistEnabled settings
      && (0 <? Z.of_nat (List.length (allowlist settings)))
      && isUrlAllowed (tab_url tab) (Some (allowlist settings))).

(** [id] names a tab of [allTabs] that is not spared and whose
    last-accessed stamp in [stamps] is at least [limitMs] old. *)
Definition idle_tab `{UrlParser} (settings : Settings) (now limitMs : Z)
           (stamps : gmap Z Z) (allTabs : list Tab) (id : Z) : Prop :=
  exists t ts,
    t ∈ allTabs /\ tab_id t = id /\ spared settings t = false
    /\ stamps !! id = Some ts /\ ts <> 0 /\ limitMs <= now - ts.

(** * Properties *)

(** ** Strings *)

Module JsStringFacts.

Lemma str_app_cons (c : ascii) (a b : string) :
  String c a +:+ b = String c (a +:+ b).
Proof. reflexivity. Qed.

Lemma str_app_empty (b : string) : "" +:+ b = b.
Proof. reflexivity. Qed.

Lemma str_prefix_cons (c d : ascii) (p s : string) :
  String.prefix (String c p) (String d s)
  = if ascii_dec c d then String.prefix p s else false.
Proof. reflexivity. Qed.

Lemma str_prefix_app (p s : string) : String.prefix p (p +:+ s) = true.
Proof.
  induction p as [|c p IH].
  - by destruct s.
  - rewrite str_app_cons, str_prefix_cons.
    destruct (ascii_dec c c); [exact IH | congruence].
Qed.

Lemma str_prefix_inv (p s : string) :
  String.prefix p s = true -> s = p +:+ slice (String.length p) s.
Proof.
  revert s. induction p as [|c p IH]; intros s Hp.
  - by destruct s.
  - destruct s as [|d s]; [discriminate|].
    rewrite str_prefix_cons in Hp.
    destruct (ascii_dec c d) as [->|]; [|discriminate].
    rewrite str_app_cons. simpl. f_equal. by apply IH.
Qed.

Lemma str_length_app (a b : string) :
  String.length (a +:+ b) = (String.length a + String.length b)%nat.
Proof. induction a; rewrite ?str_app_cons, ?str_app_empty; simpl; congruence. Qed.

Lemma str_app_assoc (a b c : string) : (a +:+ b) +:+ c = a +:+ (b +:+ c).
Proof. induction a; rewrite ?str_app_cons, ?str_app_empty; congruence. Qed.

Lemma str_slice_app (a b : string) : slice (String.length a) (a +:+ b) = b.
Proof. induction a; rewrite ?str_app_cons, ?str_app_empty; simpl; [by destruct b | done]. Qed.

Lemma str_slice_0 (s : string) : slice 0 s = s.
Proof. by destruct s. Qed.

Lemma str_app_slice (n : nat) (s : string) :
  (n <= String.length s)%nat -> exists p, s = p +:+ slice n s.
Proof.
  revert s. induction n as [|n IH]; intros s Hn.
  - exists EmptyString. by rewrite str_slice_0.
  - destruct s as [|c s]; simpl in *; [lia|].
    destruct (IH s) as (p & Hp); [lia|].
    exists (String c p). rewrite str_app_cons. by f_equal.
Qed.

Lemma endsWith_app (p x : string) : endsWith (p +:+ x) x = true.
Proof.
  unfold endsWith. rewrite str_length_app.
  apply andb_true_iff. split.
  - apply Nat.leb_le. lia.
  - replace (String.length p + String.length x - String.length x)%nat
      with (String.length p) by lia.
    rewrite str_slice_app. apply String.eqb_refl.
Qed.

Lemma endsWith_inv (s x : string) :
  endsWith s x = true -> exists p, s = p +:+ x.
Proof.
  unfold endsWith. intros [Hl He]%andb_true_iff.
  apply Nat.leb_le in Hl. apply String.eqb_eq in He.
  destruct (str_app_slice (String.length s - String.length x) s) as (p & Hp); [lia|].
  exists p. by rewrite He in Hp.
Qed.

Lemma endsWith_iff (s x : string) :
  endsWith s x = true <-> exists p, s = p +:+ x.
Proof.
  split; [apply endsWith_inv|]. intros [p ->]. apply endsWith_app.
Qed.

Lemma toLowerCase_app (a b : string) :
  toLowerCase (a +:+ b) = toLowerCase a +:+ toLowerCase b.
Proof. induction a; rewrite ?str_app_cons, ?str_app_empty; simpl; rewrite ?str_app_cons; congruence. Qed.

(** Stripping removes nothing or exactly the prefix ["www."]. *)
Lemma strip_www_cases (s : string) :
  strip_www s = s \/ s = "www." +:+ strip_www s.
Proof.
  unfold strip_www, startsWith.
  destruct (String.prefix "www." s) eqn:Hp; [right | by left].
  by apply str_prefix_inv in Hp.
Qed.

Lemma strip_www_app (r : string) : strip_www ("www." +:+ r) = r.
Proof.
  unfold strip_www, startsWith. rewrite str_prefix_app.
  change 4%nat with (String.length "www."). apply str_slice_app.
Qed.

End JsStringFacts.

Import JsStringFacts.

(** ** Allowlist matching *)

Lemma host_matches_bool (a b : string) :
  String.eqb a b || endsWith a ("." +:+ b) = true <-> host_matches a b.
Proof.
  unfold host_matches. rewrite orb_true_iff, String.eqb_eq, endsWith_iff. tauto.
Qed.

Lemma dot_suffix_strip (x e : string) :
  exists y, x +:+ "." +:+ e = y +:+ "." +:+ strip_www e.
Proof.
  destruct (strip_www_cases e) as [-> | He]; [by exists x|].
  exists (x +:+ ".www"). rewrite He at 1.
  rewrite str_app_assoc. rewrite !str_app_cons, !str_app_empty. done.
Qed.

(** A hostname that equals an entry, or ends with a dot and the entry,
    still matches after both sides are cleaned. *)
Lemma clean_matches (h d : string) :
  host_matches h d -> host_matches (clean h) (clean d).
Proof.
  unfold clean. intros [-> | [p ->]]; [by left|].
  rewrite !toLowerCase_app.
  change (toLowerCase ".") with ".".
  set (q := toLowerCase p). set (e := toLowerCase d).
  destruct (strip_www_cases (q +:+ "." +:+ e)) as [-> | Hw].
  { right. apply dot_suffix_strip. }
  set (a := strip_www (q +:+ "." +:+ e)) in *. clearbody a.
  destruct q as [|c1 [|c2 [|c3 [|c4 q]]]];
    rewrite ?str_app_cons, ?str_app_empty in Hw; try discriminate.
  - injection Hw as _ _ _ Hea. rewrite <- Hea.
    destruct (strip_www_cases e) as [He | He]; [left; congruence|].
    right. exists "www". rewrite He at 1. by rewrite !str_app_cons, !str_app_empty.
  - injection Hw as _ _ _ _ Hea. rewrite <- Hea. right. apply dot_suffix_strip.
Qed.

Section AllowlistFacts.
Context `{UrlParser}.

Lemma isUrlAllowed_true_iff (u : string) (l : list string) :
  isUrlAllowed (Some u) (Some l) = true <->
  u <> "" /\ exists h domain,
    url_hostname u = Some h /\ domain ∈ l /\ host_matches (clean h) (clean domain).
Proof.
  unfold isUrlAllowed.
  destruct (String.eqb_spec u "") as [->|Hu].
  { split; [discriminate | by intros [? _]]. }
  destruct (Z.eqb_spec (Z.of_nat (List.length l)) 0) as [Hl|Hl].
  { destruct l; [|simpl in Hl; lia].
    split; [discriminate|]. intros (_ & h & d & _ & Hd & _). by apply elem_of_nil in Hd. }
  destruct (url_hostname u) as [h|].
  - rewrite existsb_exists. split.
    + intros (d & Hd & Hm). split; [done|]. exists h, d.
      split; [done|]. split; [by apply list_elem_of_In|].
      by apply host_matches_bool.
    + intros (_ & h' & d & [= <-] & Hd & Hm). exists d.
      split; [by apply list_elem_of_In|]. by apply host_matches_bool.
  - split; [discriminate|]. by intros (_ & h & d & ? & _).
Qed.

Lemma isUrlAllowed_off (url : option string) (l : option (list string)) :
  url = None \/ url = Some "" \/ l = None \/ l = Some [] ->
  isUrlAllowed url l = false.
Proof.
  intros [-> | [-> | [-> | ->]]]; try done.
  - by destruct l.
  - by destruct url.
  - destruct url as [u|]; [|done]. simpl. by destruct (String.eqb u "").
Qed.

Lemma isUrlAllowed_unparseable (u : string) (l : option (list string)) :
  url_hostname u = None -> isUrlAllowed (Some u) l = false.
Proof.
  intros Hp. destruct l as [l|]; [|done]. unfold isUrlAllowed. rewrite Hp.
  destruct (String.eqb u ""); [done|]. by destruct (_ =? 0).
Qed.

(** A tab whose hostname matches an entry is allowlisted. *)
Lemma isUrlAllowed_match (u h domain : string) (l : list string) :
  u <> "" -> url_hostname u = Some h -> domain ∈ l -> host_matches h domain ->
  isUrlAllowed (Some u) (Some l) = true.
Proof.
  intros Hu Hh Hd Hm. apply isUrlAllowed_true_iff. split; [done|].
  exists h, domain. eauto using clean_matches.
Qed.

End AllowlistFacts.

(** ** Counting *)

Section CountFacts.
Context `{UrlParser}.

Lemma query_window_app (l1 l2 : list Tab) (windowId : Z) :
  query_window (l1 ++ l2) windowId = query_window l1 windowId ++ query_window l2 windowId.
Proof. apply List.filter_app. Qed.

Lemma counted_off (s : Settings) (tabs : list Tab) :
  allowlistEnabled s = false \/ allowlist s = [] ->
  counted s tabs = Z.of_nat (List.length tabs).
Proof.
  unfold counted. intros [-> | ->]; [done|]. by rewrite andb_false_r.
Qed.

Lemma counted_app (s : Settings) (l1 l2 : list Tab) :
  counted s (l1 ++ l2) = counted s l1 + counted s l2.
Proof.
  unfold counted. destruct (_ && _).
  - rewrite List.filter_app, !length_app. lia.
  - rewrite length_app. lia.
Qed.

Lemma counted_allowlisted (s : Settings) (t : Tab) :
  allowlistEnabled s = true ->
  isUrlAllowed (tab_url t) (Some (allowlist s)) = true ->
  counted s [t] = 0.
Proof.
  intros He Ha. unfold counted. rewrite He. simpl.
  destruct (allowlist s) as [|d l] eqn:Hl.
  - by rewrite isUrlAllowed_off in Ha by auto.
  - simpl. rewrite Ha. done.
Qed.

End CountFacts.

(** ** C3, C4, C9: the tab accountant and the allowlist *)

(** C3. With allowlisting disabled, or with an empty allowlist, the count of
    a window is the number of tabs the host reports for that window, and the
    global count is the number of tabs the host reports in all windows. *)
Theorem count_is_raw_when_allowlisting_off `{UrlParser}
        (host_tabs : list Tab) (windowId : Z) (s : Settings) :
  allowlistEnabled s = false \/ allowlist s = [] ->
  getWindowTabCount host_tabs windowId (Some s)
  = Z.of_nat (List.length (query_window host_tabs windowId))
  /\ getGlobalTabCount host_tabs (Some s)
     = Z.of_nat (List.length (query_all host_tabs)).
Proof.
  intros Hoff. unfold getWindowTabCount, getGlobalTabCount.
  split; by apply counted_off.
Qed.

Lemma count_is_raw_when_allowlisting_off_witness :
  (allowlistEnabled DEFAULT_SETTINGS = false \/ allowlist DEFAULT_SETTINGS = [])
  /\ getWindowTabCount (H := simple_parser) Sample.three_tabs 1 (Some DEFAULT_SETTINGS) = 3
  /\ getGlobalTabCount (H := simple_parser) Sample.three_tabs (Some DEFAULT_SETTINGS) = 3.
Proof.
  split; [left; reflexivity|].
  apply (count_is_raw_when_allowlisting_off (H := simple_parser)
           Sample.three_tabs 1 DEFAULT_SETTINGS).
  left; reflexivity.
Defined.

(** C4. While allowlisting is enabled, a tab whose hostname equals an entry
    of the allowlist, or ends with a dot followed by the entry, does not
    count: the window count and the global count are what they are without
    the tab. Under settings with allowlisting off the same tab counts for
    one. *)
Theorem allowlisted_tab_excluded_from_count `{UrlParser}
        (s s_off : Settings) (before after : list Tab) (t : Tab)
        (u h domain : string) :
  allowlistEnabled s = true ->
  domain ∈ allowlist s ->
  tab_url t = Some u -> u <> "" -> url_hostname u = Some h ->
  (h = domain \/ exists p, h = p +:+ "." +:+ domain) ->
  allowlistEnabled s_off = false ->
  let host_tabs := before ++ t :: after in
  let others := before ++ after in
  getWindowTabCount host_tabs (tab_windowId t) (Some s)
  = getWindowTabCount others (tab_windowId t) (Some s)
  /\ getGlobalTabCount host_tabs (Some s) = getGlobalTabCount others (Some s)
  /\ getWindowTabCount host_tabs (tab_windowId t) (Some s_off)
     = getWindowTabCount others (tab_windowId t) (Some s_off) + 1
  /\ getGlobalTabCount host_tabs (Some s_off)
     = getGlobalTabCount others (Some s_off) + 1.
Proof.
  intros Hon Hd Hu Hne Hh Hm Hoff host_tabs others.
  assert (Ha : isUrlAllowed (tab_url t) (Some (allowlist s)) = true).
  { rewrite Hu. by eapply isUrlAllowed_match. }
  assert (Hzero : counted s [t] = 0) by by apply counted_allowlisted.
  assert (Hone : counted s_off [t] = 1) by by rewrite counted_off by auto.
  assert (Hw : query_window (t :: after) (tab_windowId t)
               = [t] ++ query_window after (tab_windowId t)).
  { unfold query_window. simpl. by rewrite Z.eqb_refl. }
  unfold getWindowTabCount, getGlobalTabCount, query_all, host_tabs, others.
  rewrite !query_window_app, Hw.
  change (t :: after) with ([t] ++ after).
  rewrite !counted_app, Hzero, Hone. lia.
Qed.

Lemma allowlisted_tab_excluded_from_count_witness :
  let s := Sample.with_allowlist ["example.com"] DEFAULT_SETTINGS in
  let t := Sample.page 4 1 "https://docs.example.com/page" in
  getWindowTabCount (H := simple_parser) (Sample.three_tabs ++ [t]) 1 (Some s) = 3
  /\ getWindowTabCount (H := simple_parser) (Sample.three_tabs ++ [t]) 1
       (Some DEFAULT_SETTINGS) = 4.
Proof.
  intros s t.
  destruct (allowlisted_tab_excluded_from_count (H := simple_parser)
              s DEFAULT_SETTINGS Sample.three_tabs [] t
              "https://docs.example.com/page" "docs.example.com" "example.com")
    as (Hw & _ & Hoff & _).
  - reflexivity.
  - apply list_elem_of_In. left. reflexivity.
  - reflexivity.
  - discriminate.
  - reflexivity.
  - right. exists "docs". reflexivity.
  - reflexivity.
  - split; [exact Hw | exact Hoff].
Defined.

(** C9. [isUrlAllowed] answers [true] exactly when the url parses and its
    hostname, lowercased and without a leading "www.", equals an entry
    cleaned the same way or ends with a dot followed by it; so
    "www.Example.com" matches the entry "example.com" and the other way
    round. A url that does not parse, an absent url and an empty or absent
    allowlist give [false]. *)
Theorem isUrlAllowed_normalized `{UrlParser}
        (url : option string) (entries : option (list string)) :
  (isUrlAllowed url entries = true <->
   exists u l h domain,
     url = Some u /\ u <> "" /\ entries = Some l /\ url_hostname u = Some h
     /\ domain ∈ l /\ host_matches (clean h) (clean domain))
  /\ (forall u, url = Some u -> url_hostname u = None ->
                isUrlAllowed url entries = false)
  /\ (url = None \/ url = Some "" \/ entries = None \/ entries = Some [] ->
      isUrlAllowed url entries = false)
  /\ (forall u, url = Some u -> u <> "" ->
                (url_hostname u = Some "www.Example.com" /\ entries = Some ["example.com"])
                \/ (url_hostname u = Some "example.com" /\ entries = Some ["www.Example.com"]) ->
                isUrlAllowed url entries = true).
Proof.
  split; [|split; [|split]].
  - split.
    + intros Ha. destruct url as [u|]; [|done]. destruct entries as [l|]; [|done].
      apply isUrlAllowed_true_iff in Ha as (Hu & h & d & Hh & Hd & Hm).
      by exists u, l, h, d.
    + intros (u & l & h & d & -> & Hu & -> & Hh & Hd & Hm).
      apply isUrlAllowed_true_iff. split; [done|]. by exists h, d.
  - intros u -> Hp. by apply isUrlAllowed_unparseable.
  - apply isUrlAllowed_off.
  - intros u -> Hu [[Hh ->] | [Hh ->]];
      apply isUrlAllowed_true_iff; (split; [done|]).
    + exists "www.Example.com", "example.com".
      split; [done|]. split; [apply list_elem_of_In; by left|]. by left.
    + exists "example.com", "www.Example.com".
      split; [done|]. split; [apply list_elem_of_In; by left|]. by left.
Qed.

Lemma isUrlAllowed_normalized_witness :
  isUrlAllowed (H := simple_parser) (Some "https://WWW.Example.com/page")
               (Some ["www.example.COM"]) = true
  /\ isUrlAllowed (H := simple_parser) (Some "not a url") (Some ["example.com"]) = false.
Proof.
  split.
  - apply (proj1 (isUrlAllowed_normalized (H := simple_parser) _ _)).
    exists "https://WWW.Example.com/page", ["www.example.COM"],
           "www.example.com", "www.example.COM".
    repeat split; try reflexivity; try discriminate.
    + apply list_elem_of_In. left. reflexivity.
    + left. reflexivity.
  - apply (proj1 (proj2 (isUrlAllowed_normalized (H := simple_parser) _ _))
             "not a url"); reflexivity.
Defined.

(** ** C8: the stats store *)

Lemma date_is_true (stored : option string) (date : string) :
  date_is stored date = true <-> stored = Some date.
Proof.
  destruct stored as [d|]; simpl; [|by split].
  rewrite String.eqb_eq. split; congruence.
Qed.

Lemma date_is_false (stored : option string) (date : string) :
  date_is stored date = false <-> stored <> Some date.
Proof.
  rewrite <- date_is_true. destruct (date_is stored date); split; congruence.
Qed.

(** [updateStreak] touches the streak fields and [lastActiveDate] only. *)
Lemma updateStreak_blocked (clock : Clock) (s : Stats) :
  blockedToday (updateStreak clock s) = blockedToday s
  /\ blockedWeek (updateStreak clock s) = blockedWeek s
  /\ blockedTotal (updateStreak clock s) = blockedTotal s
  /\ inactiveClosed (updateStreak clock s) = inactiveClosed s
  /\ lastBlockDate (updateStreak clock s) = lastBlockDate s
  /\ weekStartDate (updateStreak clock s) = weekStartDate s.
Proof.
  unfold updateStreak. repeat case_match; simpl; repeat split.
Qed.

(** The counters [getStats] returns, against the stored ones. *)
Lemma getStats_of_counters (clock : Clock) (stored : Stats) :
  (date_is (lastBlockDate stored) (today clock) = true ->
   blockedToday (getStats_of clock stored) = blockedToday stored)
  /\ (date_is (lastBlockDate stored) (today clock) = false ->
      blockedToday (getStats_of clock stored) = 0)
  /\ (date_is (weekStartDate stored) (weekStart clock) = true ->
      blockedWeek (getStats_of clock stored) = blockedWeek stored)
  /\ (date_is (weekStartDate stored) (weekStart clock) = false ->
      blockedWeek (getStats_of clock stored) = 0)
  /\ blockedTotal (getStats_of clock stored) = blockedTotal stored
  /\ inactiveClosed (getStats_of clock stored) = inactiveClosed stored
  /\ lastBlockDate (getStats_of clock stored) = lastBlockDate stored
  /\ weekStartDate (getStats_of clock stored) = Some (weekStart clock).
Proof.
  unfold getStats_of.
  match goal with
  | |- context [updateStreak clock ?x] =>
      destruct (updateStreak_blocked clock x) as (-> & -> & -> & -> & -> & ->)
  end.
  destruct (date_is (lastBlockDate stored) (today clock)) eqn:Hd; simpl;
    (destruct (date_is (weekStartDate stored) (weekStart clock)) eqn:Hw;
     [apply date_is_true in Hw|]); simpl;
    repeat split; intros; try congruence; try done.
Qed.

(** C8. [getStats] returns [blockedToday = 0] when the stored
    [lastBlockDate] is not today, and [blockedWeek = 0] with [weekStartDate]
    set to the current week's start when the stored [weekStartDate] is not
    the current week's start; a counter whose stored date matches is
    returned as stored. The read changes nothing. *)
Theorem getStats_resets_stale_counters (clock : Clock) (w : World) :
  let stored := w_stats w in
  let stats := result (getStats clock) w in
  (lastBlockDate stored <> Some (today clock) -> blockedToday stats = 0)
  /\ (weekStartDate stored <> Some (weekStart clock) ->
      blockedWeek stats = 0 /\ weekStartDate stats = Some (weekStart clock))
  /\ (lastBlockDate stored = Some (today clock) ->
      blockedToday stats = blockedToday stored)
  /\ (weekStartDate stored = Some (weekStart clock) ->
      blockedWeek stats = blockedWeek stored
      /\ weekStartDate stats = weekStartDate stored)
  /\ blockedTotal stats = blockedTotal stored
  /\ lastBlockDate stats = lastBlockDate stored
  /\ run (getStats clock) w = w.
Proof.
  intros stored stats. subst stats. unfold result, run, getStats, gets. simpl.
  fold stored. unfold getStats_of.
  match goal with
  | |- context [updateStreak clock ?x] =>
      destruct (updateStreak_blocked clock x) as (-> & -> & -> & _ & -> & ->)
  end.
  destruct (date_is (lastBlockDate stored) (today clock)) eqn:Hd;
    [apply date_is_true in Hd | apply date_is_false in Hd];
    simpl;
    (destruct (date_is (weekStartDate stored) (weekStart clock)) eqn:Hw;
     [apply date_is_true in Hw | apply date_is_false in Hw]);
    simpl; repeat split; intros; try congruence; try done.
Qed.

Lemma getStats_resets_stale_counters_witness :
  let stale := with_lastBlockDate (Some "Sun Nov 01 2026")
                 (with_blockedToday 7 DEFAULT_STATS) in
  let w := set_stats stale (Sample.world [] DEFAULT_SETTINGS) in
  blockedToday (w_stats w) = 7
  /\ blockedToday (result (getStats Sample.clock) w) = 0.
Proof.
  intros stale w. split; [reflexivity|].
  apply (proj1 (getStats_resets_stale_counters Sample.clock w)).
  discriminate.
Defined.

(** ** Reasoning about handlers *)

Lemma run_bind {A B} (m : M A) (k : A -> M B) (w : World) :
  (m ≫= k) w = k (fst (m w)) (snd (m w)).
Proof. unfold mbind, M_bind. by destruct (m w). Qed.

Lemma set_trace_id (w : World) : set_trace (w_trace w) w = w.
Proof. by destruct w. Qed.

Lemma reports_only_refl (w : World) : reports_only w w.
Proof. exists []. simpl. by rewrite set_trace_id. Qed.

Lemma reports_only_call (c : HostCall) (w : World) :
  is_report c -> reports_only w (snd (call c w)).
Proof. intros Hc. exists [c]. split; [done | by constructor]. Qed.

Lemma reports_only_trans (w1 w2 w3 : World) :
  reports_only w1 w2 -> reports_only w2 w3 -> reports_only w1 w3.
Proof.
  intros (e1 & -> & H1) (e2 & -> & H2). exists (e2 ++ e1).
  split; [by rewrite <- app_assoc | by apply Forall_app].
Qed.

Section ReportFacts.
Context `{UrlParser}.

Lemma updateBadge_reports (w : World) : reports_only w (snd (updateBadge w)).
Proof.
  unfold updateBadge. rewrite run_bind. simpl.
  destruct (negb _); [by apply reports_only_call|].
  rewrite run_bind. simpl. case_match.
  - rewrite run_bind. simpl. by apply reports_only_call.
  - by apply reports_only_call.
Qed.

Lemma broadcastTabCount_reports (w : World) :
  reports_only w (snd (broadcastTabCount w)).
Proof.
  unfold broadcastTabCount. rewrite !run_bind. simpl. case_match.
  - rewrite !run_bind. simpl.
    eapply reports_only_trans; [|apply updateBadge_reports].
    by apply (reports_only_call (SendTabCount _)).
  - apply reports_only_refl.
Qed.

End ReportFacts.

(** ** C7: closing a tab counts one block *)

Lemma is_open_elem (t : Tab) (tabs : list Tab) :
  t ∈ tabs -> is_open (tab_id t) tabs = true.
Proof.
  intros Ht. apply existsb_exists. exists t.
  split; [by apply list_elem_of_In | apply Z.eqb_refl].
Qed.

(** Normalises a world built from setters and monad steps, leaving the
    stats and corral computations folded. *)
Ltac world_norm :=
  cbv beta iota zeta delta
      [run result fst snd mbind M_bind mret M_ret gets modify call when
       getSettings getStats saveStats incrementBlocked incrementInactiveClosed
       forget_pending untrack_allowlisted track_allowlisted
       set_tabs set_nextTabId set_stats set_tabCorral set_tabActivity
       set_pendingTabs set_allowlistTabs set_corralRestoredTabs
       set_tabLastAccessed set_persistDirty set_trace
       w_tabs w_currentWindow w_nextTabId w_settings w_stats w_tabCorral
       w_tabActivity pendingTabs allowlistTabs corralRestoredTabs
       tabLastAccessed activatedDebounceTabId persistDirty w_trace].

Section CloseFacts.
Context `{UrlParser}.

(** What [closeTab] does to an open tab. *)
Lemma closeTab_open (clock : Clock) (tabId : Z) (w : World) :
  is_open tabId (w_tabs w) = true ->
  run (closeTab clock tabId) w
  = set_trace (StorageSet KStats :: TabsRemove tabId true :: w_trace w)
      (set_stats (count_block clock (getStats_of clock (w_stats w)))
         (set_tabs (List.filter (fun t => negb (tab_id t =? tabId)) (w_tabs w))
            (set_allowlistTabs (allowlistTabs w ∖ {[tabId]})
               (set_pendingTabs (delete tabId (pendingTabs w)) w)))).
Proof.
  intros Ho. destruct w. cbn [w_tabs] in Ho.
  unfold closeTab, tabs_remove. world_norm. rewrite Ho. world_norm. reflexivity.
Qed.

(** What [closeTab] does when the tab is already gone. *)
Lemma closeTab_gone (clock : Clock) (tabId : Z) (w : World) :
  is_open tabId (w_tabs w) = false ->
  run (closeTab clock tabId) w
  = set_trace (TabsRemove tabId false :: w_trace w)
      (set_allowlistTabs (allowlistTabs w ∖ {[tabId]})
         (set_pendingTabs (delete tabId (pendingTabs w)) w)).
Proof.
  intros Ho. destruct w. cbn [w_tabs] in Ho.
  unfold closeTab, tabs_remove. world_norm. rewrite Ho. world_norm. reflexivity.
Qed.

Lemma count_block_counters (clock : Clock) (s : Stats) :
  blockedToday (count_block clock s) = blockedToday s + 1
  /\ blockedWeek (count_block clock s) = blockedWeek s + 1
  /\ blockedTotal (count_block clock s) = blockedTotal s + 1
  /\ lastBlockDate (count_block clock s) = Some (today clock).
Proof.
  unfold count_block.
  match goal with
  | |- context [updateStreak clock ?x] =>
      destruct (updateStreak_blocked clock x) as (-> & -> & -> & _ & -> & _)
  end.
  simpl. auto.
Qed.

Lemma window_count_le_global (tabs : list Tab) (windowId : Z) :
  (List.length (query_window tabs windowId) <= List.length tabs)%nat.
Proof. apply List.filter_length_le. Qed.

End CloseFacts.

Section FourthTab.
Context `{UrlParser}.

(** With allowlisting off, a new tab that is over the limit is closed
    at once, whatever its url. *)
Lemma handleTabCreated_over_limit (clock : Clock) (w : World) (tab : Tab) :
  enabled (w_settings w) = true ->
  allowlistEnabled (w_settings w) = false ->
  tab_id tab ∉ corralRestoredTabs w ->
  maxTabs (w_settings w)
  < getCurrentTabCount (w_tabs w) (tab_windowId tab) (w_settings w) ->
  exists w1, reports_only w w1
             /\ run (handleTabCreated clock tab) w = run (closeTab clock (tab_id tab)) w1.
Proof.
  intros Hen Hal Hre Hover.
  unfold run, handleTabCreated. rewrite run_bind. simpl. rewrite Hen. simpl.
  rewrite run_bind. simpl. rewrite bool_decide_eq_false_2 by done.
  rewrite Hal. simpl. rewrite !run_bind. simpl.
  apply Z.leb_gt in Hover. rewrite Hover.
  eexists. split; [|reflexivity].
  eapply reports_only_trans; [|apply updateBadge_reports].
  by apply (reports_only_call (SendTabCount _)).
Qed.

End FourthTab.

(** C7. Limit 3, allowlisting disabled: when a tab is created in a window
    that now holds four tabs, the handler closes that tab and the stored
    stats have [blockedToday], [blockedWeek] and [blockedTotal] one above
    what [getStats] read, with [lastBlockDate] set to today. *)
Theorem fourth_tab_closed_and_counted `{UrlParser}
        (clock : Clock) (w : World) (tab : Tab) :
  enabled (w_settings w) = true ->
  allowlistEnabled (w_settings w) = false ->
  maxTabs (w_settings w) = 3 ->
  tab_id tab ∉ corralRestoredTabs w ->
  tab ∈ w_tabs w ->
  List.length (query_window (w_tabs w) (tab_windowId tab)) = 4%nat ->
  let w' := run (handleTabCreated clock tab) w in
  let read := result (getStats clock) w in
  (exists reports,
      w_trace w' = StorageSet KStats :: TabsRemove (tab_id tab) true :: reports ++ w_trace w
      /\ Forall is_report reports)
  /\ w_tabs w' = List.filter (fun t => negb (tab_id t =? tab_id tab)) (w_tabs w)
  /\ blockedToday (w_stats w') = blockedToday read + 1
  /\ blockedWeek (w_stats w') = blockedWeek read + 1
  /\ blockedTotal (w_stats w') = blockedTotal (w_stats w) + 1
  /\ lastBlockDate (w_stats w') = Some (today clock)
  /\ (lastBlockDate (w_stats w) = Some (today clock) ->
      blockedToday (w_stats w') = blockedToday (w_stats w) + 1)
  /\ (weekStartDate (w_stats w) = Some (weekStart clock) ->
      blockedWeek (w_stats w') = blockedWeek (w_stats w) + 1).
Proof.
  intros Hen Hal Hmax Hre Hin Hlen w' read.
  destruct (handleTabCreated_over_limit clock w tab) as (w1 & (evs & -> & Hev) & Hrun);
    try done.
  { rewrite Hmax. unfold getCurrentTabCount, getWindowTabCount, getGlobalTabCount, query_all.
    rewrite !counted_off by auto.
    pose proof (window_count_le_global (w_tabs w) (tab_windowId tab)).
    destruct (globalLimit _); lia. }
  subst w'. rewrite Hrun, closeTab_open by (simpl; by apply is_open_elem).
  simpl.
  destruct (count_block_counters clock (getStats_of clock (w_stats w)))
    as (Ht & Hw & Htot & Hd).
  destruct (getStats_of_counters clock (w_stats w))
    as (Hsame & _ & Hweek & _ & Htotal & _).
  unfold result, getStats, gets in *. simpl in *. subst read. simpl.
  repeat split; try done.
  - by exists evs.
  - by rewrite Htot, Htotal.
  - intros Hd'. rewrite Ht, Hsame; [done | by apply date_is_true].
  - intros Hw'. rewrite Hw, Hweek; [done | by apply date_is_true].
Qed.

Lemma fourth_tab_closed_and_counted_witness :
  let tab := Sample.page 4 1 "https://d.com/" in
  let w := Sample.world (Sample.three_tabs ++ [tab]) DEFAULT_SETTINGS in
  let w' := run (handleTabCreated (H := simple_parser) Sample.clock tab) w in
  map tab_id (w_tabs w') = [1; 2; 3]
  /\ blockedTotal (w_stats w') = blockedTotal (w_stats w) + 1.
Proof.
  intros tab w w'.
  destruct (fourth_tab_closed_and_counted (H := simple_parser) Sample.clock w tab)
    as (_ & Htabs & _ & _ & Htotal & _).
  - reflexivity.
  - reflexivity.
  - reflexivity.
  - apply not_elem_of_empty.
  - apply list_elem_of_In. simpl. auto.
  - reflexivity.
  - split; [|exact Htotal]. subst w'. rewrite Htabs. reflexivity.
Defined.

(** ** C1: only the triggering tab may be closed *)

Section Frame.
Context `{UrlParser}.
Variable tabId : Z.

Lemma filter_other_elem (t : Tab) (tabs : list Tab) :
  t ∈ tabs -> tab_id t <> tabId ->
  t ∈ List.filter (fun t => negb (tab_id t =? tabId)) tabs.
Proof.
  intros Ht Hne. apply list_elem_of_In, List.filter_In.
  split; [by apply list_elem_of_In|]. apply negb_true_iff. by apply Z.eqb_neq.
Qed.

Lemma filter_other_twice (tabs : list Tab) :
  List.filter (fun t => negb (tab_id t =? tabId))
    (List.filter (fun t => negb (tab_id t =? tabId)) tabs)
  = List.filter (fun t => negb (tab_id t =? tabId)) tabs.
Proof.
  induction tabs as [|t tabs IH]; [done|]. simpl.
  destruct (negb (tab_id t =? tabId)) eqn:Ht; simpl; rewrite ?Ht; congruence.
Qed.

Lemma closes_only_refl (w : World) : closes_only tabId w w.
Proof. split; [by exists [] | split; auto]. Qed.

Lemma closes_only_trans (w1 w2 w3 : World) :
  closes_only tabId w1 w2 -> closes_only tabId w2 w3 -> closes_only tabId w1 w3.
Proof.
  intros ((e1 & Ht1 & Hr1) & Hk1 & Hs1) ((e2 & Ht2 & Hr2) & Hk2 & Hs2).
  split; [|split].
  - exists (e2 ++ e1). rewrite Ht2, Ht1, <- app_assoc.
    split; [done | by apply Forall_app].
  - auto.
  - destruct Hs1 as [E1 | E1], Hs2 as [E2 | E2]; rewrite E2, E1; auto.
    right. apply filter_other_twice.
Qed.

(** A step that leaves the open tabs alone and logs no removal. *)
Lemma closes_only_quiet (w w' : World) (evs : list HostCall) :
  w_tabs w' = w_tabs w -> w_trace w' = evs ++ w_trace w ->
  Forall (is_removal_of tabId) evs -> closes_only tabId w w'.
Proof.
  intros Ht Htr Hev. split; [by exists evs|]. rewrite Ht. auto.
Qed.

Lemma closes_only_reports (w w' : World) :
  reports_only w w' -> closes_only tabId w w'.
Proof.
  intros (evs & -> & Hev). apply (closes_only_quiet _ _ evs); try done.
  eapply Forall_impl; [exact Hev|]. by intros [].
Qed.

Lemma keeps_ret {A} (a : A) : keeps (closes_only tabId) (mret a).
Proof. intros w. apply closes_only_refl. Qed.

Lemma keeps_bind {A B} (m : M A) (k : A -> M B) :
  keeps (closes_only tabId) m -> (forall a, keeps (closes_only tabId) (k a)) ->
  keeps (closes_only tabId) (m ≫= k).
Proof.
  intros Hm Hk w. rewrite run_bind.
  eapply closes_only_trans; [apply Hm | apply Hk].
Qed.

Lemma keeps_gets {A} (f : World -> A) : keeps (closes_only tabId) (gets f).
Proof. intros w. apply closes_only_refl. Qed.

Lemma keeps_when (c : bool) (m : M unit) :
  keeps (closes_only tabId) m -> keeps (closes_only tabId) (when c m).
Proof. intros Hm. destruct c; [done | apply keeps_ret]. Qed.

Lemma keeps_call (c : HostCall) :
  is_removal_of tabId c -> keeps (closes_only tabId) (call c).
Proof.
  intros Hc w. apply (closes_only_quiet _ _ [c]); try done. by constructor.
Qed.

Lemma keeps_script (f : World -> World) :
  (forall w, w_tabs (f w) = w_tabs w) -> (forall w, w_trace (f w) = w_trace w) ->
  keeps (closes_only tabId) (modify f).
Proof.
  intros Ht Htr w. simpl.
  apply (closes_only_quiet _ _ []); [apply Ht | apply Htr | constructor].
Qed.

Lemma keeps_updateBadge : keeps (closes_only tabId) updateBadge.
Proof. intros w. apply closes_only_reports, updateBadge_reports. Qed.

Lemma keeps_broadcastTabCount : keeps (closes_only tabId) broadcastTabCount.
Proof. intros w. apply closes_only_reports, broadcastTabCount_reports. Qed.

Lemma keeps_closeTab (clock : Clock) : keeps (closes_only tabId) (closeTab clock tabId).
Proof.
  intros w. change (snd (closeTab clock tabId w)) with (run (closeTab clock tabId) w).
  destruct (is_open tabId (w_tabs w)) eqn:Ho.
  - rewrite closeTab_open by done. split; [|split].
    + exists [StorageSet KStats; TabsRemove tabId true]. split; [done|].
      by repeat constructor.
    + intros t Ht Hne. simpl. by apply filter_other_elem.
    + by right.
  - rewrite closeTab_gone by done.
    apply (closes_only_quiet _ _ [TabsRemove tabId false]); try done.
    by repeat constructor.
Qed.

End Frame.

Create HintDb frame.
#[local] Hint Resolve keeps_ret keeps_gets keeps_updateBadge
  keeps_broadcastTabCount keeps_closeTab : frame.

(** Walks through a handler: one rule per statement form. *)
Ltac frame_step :=
  first
    [ solve [eauto with frame]
    | apply keeps_when
    | apply keeps_call; exact I
    | apply keeps_script; intros; reflexivity
    | apply keeps_bind; [|intros ?]
    | case_match ].

Ltac frame := repeat frame_step.

Section FrameHandlers.
Context `{UrlParser}.

Lemma keeps_checkPendingTab (clock : Clock) (tabId : Z) :
  keeps (closes_only tabId) (checkPendingTab clock tabId).
Proof. unfold checkPendingTab, track_allowlisted, forget_pending, currentTabCount, getSettings, tabs_get. frame. Qed.

Lemma keeps_handleTabCreated (clock : Clock) (tab : Tab) :
  keeps (closes_only (tab_id tab)) (handleTabCreated clock tab).
Proof. unfold handleTabCreated, track_allowlisted, currentTabCount, getSettings. frame. Qed.

Lemma keeps_handleTabUpdated (clock : Clock) (tabId : Z)
      (changeUrl : option string) (tab : Tab) :
  keeps (closes_only tabId) (handleTabUpdated clock tabId changeUrl tab).
Proof.
  unfold handleTabUpdated, track_allowlisted, untrack_allowlisted, forget_pending,
    currentTabCount, getSettings. frame.
Qed.

End FrameHandlers.

(** C1. Whatever the world and the event, [handleTabCreated],
    [handleTabUpdated] and [checkPendingTab] issue [tabs.remove] for the
    triggering tab only, and every other tab that was open before the
    handler ran is open after it. *)
Theorem only_triggering_tab_closed `{UrlParser} (clock : Clock) (w : World) :
  (forall tab, closes_only (tab_id tab) w (run (handleTabCreated clock tab) w))
  /\ (forall tabId changeUrl tab,
         closes_only tabId w (run (handleTabUpdated clock tabId changeUrl tab) w))
  /\ (forall tabId, closes_only tabId w (run (checkPendingTab clock tabId) w)).
Proof.
  split; [|split]; intros.
  - apply keeps_handleTabCreated.
  - apply keeps_handleTabUpdated.
  - apply keeps_checkPendingTab.
Qed.

(** ** C5: tabs whose url is not yet known *)

(** The claim as stated fails when allowlisting is disabled: the fourth tab
    arrives without a url, it is over the limit, and it is closed at once
    instead of being registered as pending. *)
Lemma unknown_url_closed_when_allowlisting_off :
  let tab := Sample.blank 4 1 in
  let w := Sample.world (Sample.three_tabs ++ [tab]) DEFAULT_SETTINGS in
  let w' := run (handleTabCreated (H := simple_parser) Sample.clock tab) w in
  isRealUrl (tab_url tab) = false
  /\ maxTabs (w_settings w)
     < getCurrentTabCount (H := simple_parser) (w_tabs w) (tab_windowId tab) (w_settings w)
  /\ pendingTabs w' !! tab_id tab = None
  /\ w_tabs w' = Sample.three_tabs
  /\ w_trace w' = [StorageSet KStats; TabsRemove 4 true;
                   SetBadgeText BadgeBlank; SendTabCount 4].
Proof. vm_compute. repeat split. Qed.

Section PendingTabs.
Context `{UrlParser}.

(** The re-evaluation: once the timeout has elapsed, [checkPendingTab]
    forgets the pending entry, keeps a tab that is allowlisted (and tracks
    it) or within the limit, and closes it otherwise. *)
Lemma checkPendingTab_elapsed (clock : Clock) (tabId : Z) (w : World) (p : Pending) :
  pendingTabs w !! tabId = Some p ->
  PENDING_TIMEOUT <= now clock - p_timestamp p ->
  enabled (w_settings w) = true ->
  allowlistEnabled (w_settings w) = true ->
  let w0 := set_pendingTabs (delete tabId (pendingTabs w)) w in
  run (checkPendingTab clock tabId) w
  = match List.find (fun t => tab_id t =? tabId) (w_tabs w) with
    | None => w0
    | Some tab =>
        if isRealUrl (tab_url tab)
           && isUrlAllowed (tab_url tab) (Some (allowlist (w_settings w)))
        then set_allowlistTabs ({[tabId]} ∪ allowlistTabs w) w0
        else if getCurrentTabCount (w_tabs w) (tab_windowId tab) (w_settings w)
                <=? maxTabs (w_settings w)
             then w0
             else run (closeTab clock tabId) w0
    end.
Proof.
  intros Hp Hel Hen Hal w0.
  unfold run, checkPendingTab. rewrite run_bind. simpl. rewrite Hp.
  apply Z.ltb_ge in Hel. rewrite Hel. rewrite !run_bind. simpl.
  rewrite Hen, Hal. simpl. rewrite run_bind. simpl.
  destruct (List.find _ _) as [tab|]; [|done].
  destruct (isRealUrl _ && _); [done|].
  rewrite run_bind. simpl. by destruct (_ <=? _).
Qed.

(** Before the timeout has elapsed, [checkPendingTab] does nothing. *)
Lemma checkPendingTab_early (clock : Clock) (tabId : Z) (w : World) (p : Pending) :
  pendingTabs w !! tabId = Some p ->
  now clock - p_timestamp p < PENDING_TIMEOUT ->
  run (checkPendingTab clock tabId) w = w.
Proof.
  intros Hp Hel. unfold run, checkPendingTab. rewrite run_bind. simpl. rewrite Hp.
  apply Z.ltb_lt in Hel. by rewrite Hel.
Qed.

(** With allowlisting on, a new tab over the limit whose url is not known
    is registered and a timer is set; nothing else changes. *)
Lemma handleTabCreated_pending (clock : Clock) (w : World) (tab : Tab) :
  enabled (w_settings w) = true ->
  allowlistEnabled (w_settings w) = true ->
  tab_id tab ∉ corralRestoredTabs w ->
  isRealUrl (tab_url tab) = false ->
  maxTabs (w_settings w)
  < getCurrentTabCount (w_tabs w) (tab_windowId tab) (w_settings w) ->
  exists reports,
    Forall is_report reports
    /\ run (handleTabCreated clock tab) w
       = set_trace (SetTimeout (CheckPendingTab (tab_id tab)) (PENDING_TIMEOUT + 50)
                      :: reports ++ w_trace w)
           (set_pendingTabs
              (<[tab_id tab := mkPending (tab_windowId tab) (now clock)]> (pendingTabs w))
              w).
Proof.
  intros Hen Hal Hre Hurl Hover.
  unfold run, handleTabCreated. rewrite run_bind. simpl. rewrite Hen. simpl.
  rewrite run_bind. simpl. rewrite bool_decide_eq_false_2 by done.
  rewrite Hal, Hurl. simpl. rewrite !run_bind. simpl.
  apply Z.leb_gt in Hover. rewrite Hover.
  destruct (updateBadge_reports
              (set_trace (SendTabCount
                            (getCurrentTabCount (w_tabs w) (tab_windowId tab) (w_settings w))
                          :: w_trace w) w)) as (evs & Hb & Hev).
  unfold currentTabCount, gets in *. simpl in *. rewrite Hb. simpl.
  exists (evs ++ [SendTabCount
                    (getCurrentTabCount (w_tabs w) (tab_windowId tab) (w_settings w))]).
  split.
  - apply Forall_app. split; [done | by repeat constructor].
  - by rewrite <- app_assoc.
Qed.

End PendingTabs.

(** C5, amended. With allowlisting enabled, a newly created tab that is
    over the limit and whose url is not yet known (and that was not just
    restored from the corral) is not closed: it is registered in
    [pendingTabs] with its window and the current time, and
    [checkPendingTab] is scheduled [PENDING_TIMEOUT + 50] ms later. When
    that check runs after the timeout, it removes the pending entry and
    decides with the allowlist and the limit: an allowlisted tab is kept
    and tracked, a tab within the limit is kept, any other is closed. *)
Theorem unknown_url_tab_pending_when_allowlisting_on `{UrlParser}
        (clock : Clock) (w : World) (tab : Tab) :
  enabled (w_settings w) = true ->
  allowlistEnabled (w_settings w) = true ->
  tab_id tab ∉ corralRestoredTabs w ->
  isRealUrl (tab_url tab) = false ->
  maxTabs (w_settings w)
  < getCurrentTabCount (w_tabs w) (tab_windowId tab) (w_settings w) ->
  let w' := run (handleTabCreated clock tab) w in
  pendingTabs w' !! tab_id tab = Some (mkPending (tab_windowId tab) (now clock))
  /\ w_tabs w' = w_tabs w
  /\ w_stats w' = w_stats w
  /\ (exists reports,
         w_trace w' = SetTimeout (CheckPendingTab (tab_id tab)) (PENDING_TIMEOUT + 50)
                        :: reports ++ w_trace w
         /\ Forall is_report reports)
  /\ forall later : Clock,
      now clock + PENDING_TIMEOUT <= now later ->
      let w0 := set_pendingTabs (delete (tab_id tab) (pendingTabs w')) w' in
      run (checkPendingTab later (tab_id tab)) w'
      = match List.find (fun t => tab_id t =? tab_id tab) (w_tabs w') with
        | None => w0
        | Some t =>
            if isRealUrl (tab_url t)
               && isUrlAllowed (tab_url t) (Some (allowlist (w_settings w')))
            then set_allowlistTabs ({[tab_id tab]} ∪ allowlistTabs w') w0
            else if getCurrentTabCount (w_tabs w') (tab_windowId t) (w_settings w')
                    <=? maxTabs (w_settings w')
                 then w0
                 else run (closeTab later (tab_id tab)) w0
        end.
Proof.
  intros Hen Hal Hre Hurl Hover w'.
  destruct (handleTabCreated_pending clock w tab) as (reports & Hrep & Hrun); try done.
  assert (Hp : pendingTabs w' !! tab_id tab
               = Some (mkPending (tab_windowId tab) (now clock))).
  { subst w'. rewrite Hrun. simpl. apply lookup_insert_eq. }
  split; [exact Hp|].
  split; [by subst w'; rewrite Hrun|].
  split; [by subst w'; rewrite Hrun|].
  split; [exists reports; by subst w'; rewrite Hrun|].
  intros later Hlater w0.
  apply (checkPendingTab_elapsed later (tab_id tab) w' _ Hp).
  - simpl. lia.
  - by subst w'; rewrite Hrun.
  - by subst w'; rewrite Hrun.
Qed.

Lemma unknown_url_tab_pending_when_allowlisting_on_witness :
  let tab := Sample.blank 4 1 in
  let s := Sample.with_allowlist ["example.com"] DEFAULT_SETTINGS in
  let w := Sample.world (Sample.three_tabs ++ [tab]) s in
  let w' := run (handleTabCreated (H := simple_parser) Sample.clock tab) w in
  pendingTabs w' !! 4 = Some (mkPending 1 (now Sample.clock))
  /\ w_tabs w' = w_tabs w.
Proof.
  intros tab s w w'.
  destruct (unknown_url_tab_pending_when_allowlisting_on (H := simple_parser)
              Sample.clock w tab) as (Hp & Ht & _).
  - reflexivity.
  - reflexivity.
  - apply not_elem_of_empty.
  - reflexivity.
  - reflexivity.
  - split; [exact Hp | exact Ht].
Defined.

(** ** C6, C10: the corral *)

Section ArrayFacts.
Context {A : Type}.

Lemma findIndex_range (p : A -> bool) (l : list A) :
  -1 <= findIndex p l < Z.of_nat (List.length l).
Proof.
  induction l as [|x l IH]; simpl; [lia|].
  destruct (p x); [lia|]. destruct (Z.ltb_spec (findIndex p l) 0); lia.
Qed.

(** A found index splits the array at the first match. *)
Lemma findIndex_found (p : A -> bool) (l : list A) :
  -1 < findIndex p l ->
  exists before x after,
    l = before ++ x :: after /\ p x = true
    /\ Forall (fun y => p y = false) before
    /\ findIndex p l = Z.of_nat (List.length before).
Proof.
  induction l as [|y l IH]; simpl; [lia|].
  destruct (p y) eqn:Hy.
  - intros _. exists [], y, l. by repeat split.
  - destruct (Z.ltb_spec (findIndex p l) 0); [lia|]. intros _.
    destruct IH as (before & x & after & -> & Hx & Hb & Hi); [lia|].
    exists (y :: before), x, after. repeat split; [done| by constructor |].
    rewrite Hi. simpl. lia.
Qed.

Lemma findIndex_none (p : A -> bool) (l : list A) :
  findIndex p l <= -1 -> Forall (fun y => p y = false) l.
Proof.
  induction l as [|y l IH]; simpl; [constructor|].
  destruct (p y) eqn:Hy; [lia|].
  destruct (Z.ltb_spec (findIndex p l) 0).
  - intros _. constructor; [done|]. apply IH. lia.
  - pose proof (findIndex_range p l). lia.
Qed.

Lemma splice1_middle (before after : list A) (x : A) :
  splice1 (Z.of_nat (List.length before)) (before ++ x :: after) = before ++ after.
Proof.
  unfold splice1. rewrite length_app. simpl.
  destruct (Z.ltb_spec (Z.of_nat (List.length before)) 0); [lia|].
  rewrite Z.min_l by lia. rewrite Nat2Z.id.
  rewrite take_app_length. f_equal.
  rewrite cons_middle, app_assoc.
  apply drop_app_length'. rewrite length_app. simpl. lia.
Qed.

End ArrayFacts.



Section CorralFacts.
Context `{UrlParser}.


Lemma count_url_none (u : string) (l : list CorralEntry) :
  Forall (fun e => String.eqb (ce_url e) u = false) l -> count_url u l = 0%nat.
Proof.
  unfold count_url. induction 1 as [|e l He _ IH]; [done|].
  simpl. by rewrite He.
Qed.





(** Under exact-url matching one turn of the loop drops the first entry
    with the tab's url, if there is one, and puts the new entry in front. *)
Lemma corral_step_exact_found (clock : Clock) (tab : Tab) (u : string)
      (corral : list CorralEntry) :
  tab_url tab = Some u -> u ∈ map ce_url corral ->
  exists before old after,
    corral = before ++ old :: after
    /\ ce_url old = u
    /\ Forall (fun e => String.eqb (ce_url e) u = false) before
    /\ corral_step clock "exactURLMatch" corral tab
       = new_entry clock tab :: before ++ after.
Proof.
  intros Hu Hin. unfold corral_step. simpl. rewrite Hu.
  set (p := fun t : CorralEntry => String.eqb (ce_url t) u).
  assert (Hfound : -1 < findIndex p corral).
  { destruct (Z.lt_ge_cases (-1) (findIndex p corral)) as [|Hno]; [done|].
    apply findIndex_none in Hno.
    apply list_elem_of_fmap in Hin as (e & -> & He).
    rewrite Forall_forall in Hno. specialize (Hno e He).
    unfold p in Hno. by rewrite String.eqb_refl in Hno. }
  destruct (findIndex_found p corral Hfound) as (before & old & after & -> & Hold & Hb & Hi).
  exists before, old, after.
  split; [done|]. split; [by apply String.eqb_eq|]. split; [done|].
  rewrite (proj2 (Z.ltb_lt _ _) Hfound), Hi. by rewrite splice1_middle.
Qed.

End CorralFacts.



(** *** The corral at the edges of its settings *)

Section CorralEdges.
Context `{UrlParser}.

(** A stored [corralMax] of 0 is read as "unset". *)
Lemma corral_limit_zero (s : Settings) : corralMax s = 0 -> corral_limit s = 100.
Proof. unfold corral_limit. by intros ->. Qed.

(** A negative [corralMax] makes the truncation throw: the add is
    abandoned and the world is left as it was. *)
Lemma addToCorral_negative_max (clock : Clock) (tabs : list Tab) (w : World) :
  corralMax (w_settings w) < 0 -> run (addToCorral clock tabs) w = w.
Proof.
  intros Hm. unfold run, addToCorral. rewrite !run_bind. simpl.
  unfold corral_after, corral_limit.
  destruct (Z.eqb_spec (corralMax (w_settings w)) 0); [lia|].
  rewrite (proj2 (Z.ltb_lt _ _)) by lia.
  by rewrite (proj2 (Z.ltb_lt (corralMax (w_settings w)) 0)) by lia.
Qed.

Lemma corral_step_exact_fresh (clock : Clock) (tab : Tab) (u : string)
      (corral : list CorralEntry) :
  tab_url tab = Some u -> u ∉ map ce_url corral ->
  corral_step clock "exactURLMatch" corral tab = new_entry clock tab :: corral.
Proof.
  intros Hu Hnot. unfold corral_step. simpl. rewrite Hu.
  set (p := fun t : CorralEntry => String.eqb (ce_url t) u).
  destruct (Z.lt_ge_cases (-1) (findIndex p corral)) as [Hfound|Hno].
  - destruct (findIndex_found p corral Hfound) as (before & old & after & -> & Hold & _).
    exfalso. apply Hnot. apply String.eqb_eq in Hold. rewrite <- Hold.
    apply list_elem_of_fmap. exists old. split; [done|].
    apply elem_of_app. right. by left.
  - by rewrite (proj2 (Z.ltb_ge _ _) Hno).
Qed.

(** Under exact-url matching a corral without two entries for one url
    stays so, whatever tabs with a url are added. *)
Lemma exact_match_keeps_urls_unique (clock : Clock) (tabs : list Tab)
      (corral : list CorralEntry) :
  Forall (fun t => is_Some (tab_url t)) tabs ->
  NoDup (map ce_url corral) ->
  NoDup (map ce_url (fold_left (corral_step clock "exactURLMatch") tabs corral)).
Proof.
  intros Htabs. revert corral.
  induction Htabs as [|tab tabs [u Hu] _ IH]; intros corral Hnd; [done|].
  simpl. apply IH.
  assert (Hnew : ce_url (new_entry clock tab) = u).
  { simpl. rewrite Hu. simpl. by destruct (String.eqb_spec u ""). }
  destruct (decide (u ∈ map ce_url corral)) as [Hin|Hnot].
  - destruct (corral_step_exact_found clock tab u corral Hu Hin)
      as (before & old & after & -> & Hold & _ & ->).
    rewrite fmap_app, fmap_cons, Hold in Hnd.
    apply NoDup_app in Hnd as (Hb & Hdisj & Ha).
    apply NoDup_cons in Ha as [Hua Ha].
    rewrite fmap_cons, fmap_app, Hnew. apply NoDup_cons. split.
    + intros [Hub|Hua']%elem_of_app; [|done].
      apply (Hdisj u Hub). by left.
    + apply NoDup_app. split; [done|]. split; [|done].
      intros x Hx Hxa. apply (Hdisj x Hx). by right.
  - rewrite (corral_step_exact_fresh clock tab u corral Hu Hnot).
    rewrite fmap_cons, Hnew. by apply NoDup_cons.
Qed.

End CorralEdges.

(** ** C2: the per-window floor of the inactivity pass *)

Section ReaperFacts.
Context `{UrlParser}.

(** [windowTabs] holds, for each window with a tab, its tabs in order. *)
Lemma group_step_lookup (acc : gmap Z (list Tab)) (tab : Tab) (windowId : Z) :
  alter (fun tabs => tabs ++ [tab]) (tab_windowId tab)
        (match acc !! tab_windowId tab with
         | None => <[tab_windowId tab := []]> acc
         | Some _ => acc
         end) !! windowId
  = if tab_windowId tab =? windowId
    then Some (default [] (acc !! windowId) ++ [tab])
    else acc !! windowId.
Proof.
  destruct (Z.eqb_spec (tab_windowId tab) windowId) as [<-|Hne].
  - rewrite lookup_alter_eq.
    destruct (acc !! tab_windowId tab) as [l|] eqn:Hl; simpl.
    + by rewrite Hl.
    + by rewrite lookup_insert_eq.
  - rewrite lookup_alter_ne by done.
    destruct (acc !! tab_windowId tab); [done|]. by rewrite lookup_insert_ne.
Qed.

Lemma group_fold_lookup (allTabs : list Tab) (acc : gmap Z (list Tab)) (windowId : Z) :
  fold_left
    (fun windowTabs tab =>
       let windowTabs :=
         match windowTabs !! tab_windowId tab with
         | None => <[tab_windowId tab := []]> windowTabs
         | Some _ => windowTabs
         end in
       alter (fun tabs => tabs ++ [tab]) (tab_windowId tab) windowTabs)
    allTabs acc !! windowId
  = match query_window allTabs windowId with
    | [] => acc !! windowId
    | q => Some (default [] (acc !! windowId) ++ q)
    end.
Proof.
  revert acc. induction allTabs as [|tab allTabs IH]; intros acc; [done|].
  cbn [fold_left]. rewrite IH. cbv zeta. rewrite group_step_lookup.
  unfold query_window. cbn [List.filter].
  destruct (tab_windowId tab =? windowId); [|done].
  destruct (List.filter _ allTabs); [done|].
  simpl. by rewrite <- app_assoc.
Qed.

Lemma group_by_window_lookup (allTabs : list Tab) (windowId : Z) :
  group_by_window allTabs !! windowId
  = match query_window allTabs windowId with
    | [] => None
    | q => Some q
    end.
Proof.
  unfold group_by_window. rewrite group_fold_lookup, lookup_empty.
  by destruct (query_window allTabs windowId).
Qed.

(** [windowRemaining] starts at the number of tabs of each window. *)
Lemma windowRemaining_lookup (allTabs : list Tab) (windowId : Z) (n : Z) :
  ((fun tabs => Z.of_nat (List.length tabs)) <$> group_by_window allTabs) !! windowId
  = Some n ->
  n = Z.of_nat (List.length (query_window allTabs windowId)).
Proof.
  rewrite lookup_fmap, group_by_window_lookup.
  destruct (query_window allTabs windowId); [done|]. by intros [= <-].
Qed.

End ReaperFacts.

Section AcceptLoop.
Context `{UrlParser}.
Variables (now minTabs : Z) (allTabs : list Tab) (windowId : Z).

Lemma closing_count_app (l1 l2 : list Closing) :
  closing_count windowId (l1 ++ l2)
  = (closing_count windowId l1 + closing_count windowId l2)%nat.
Proof. unfold closing_count. by rewrite List.filter_app, length_app. Qed.

Lemma closing_count_one (c : Closing) :
  (closing_count windowId [c] <= 1)%nat
  /\ (cl_windowId c <> windowId -> closing_count windowId [c] = 0%nat).
Proof.
  unfold closing_count. simpl.
  destruct (Z.eqb_spec (cl_windowId c) windowId); simpl; split; (lia || done).
Qed.

(** One accepted candidate costs its window one unit of budget, and a
    window at the floor accepts nothing. *)
Lemma accept_step_window (st : gmap Z Z * gmap Z Z * list Closing) (c : Candidate) (r : Z) :
  st.1.1 !! windowId = Some r ->
  let st' := accept_step now minTabs allTabs st c in
  exists r',
    st'.1.1 !! windowId = Some r'
    /\ Z.of_nat (closing_count windowId st'.2) - Z.of_nat (closing_count windowId st.2)
       <= r - r'
    /\ r' <= r /\ Z.min r minTabs <= r'.
Proof.
  destruct st as [[rem la] acc]. simpl. intros Hr.
  unfold accept_step, at_floor.
  destruct (Z.eq_dec (c_windowId c) windowId) as [Hw|Hw].
  - rewrite Hw, Hr. destruct (Z.leb_spec r minTabs); simpl.
    + exists r. split; [done|]. lia.
    + exists (r - 1). rewrite lookup_alter_eq, Hr. split; [done|].
      destruct (List.find _ allTabs); [|lia].
      rewrite closing_count_app.
      pose proof (proj1 (closing_count_one (mkClosing (c_id c) windowId t))). lia.
  - exists r.
    destruct (match rem !! c_windowId c with
              | Some n => n <=? minTabs
              | None => false
              end); simpl.
    + split; [done|]. lia.
    + rewrite lookup_alter_ne by done. split; [done|].
      destruct (List.find _ allTabs); [|lia].
      rewrite closing_count_app.
      rewrite (proj2 (closing_count_one (mkClosing (c_id c) (c_windowId c) t))) by done.
      lia.
Qed.

Lemma accept_fold_window (cands : list Candidate)
      (st : gmap Z Z * gmap Z Z * list Closing) (r : Z) :
  st.1.1 !! windowId = Some r ->
  let st' := fold_left (accept_step now minTabs allTabs) cands st in
  exists r',
    st'.1.1 !! windowId = Some r'
    /\ Z.of_nat (closing_count windowId st'.2) - Z.of_nat (closing_count windowId st.2)
       <= r - r'
    /\ r' <= r /\ Z.min r minTabs <= r'.
Proof.
  revert st r. induction cands as [|c cands IH]; intros st r Hr.
  - exists r. simpl. split; [done|]. lia.
  - destruct (accept_step_window st c r Hr) as (r1 & Hr1 & Hc1 & Hle1 & Hmin1).
    destruct (IH _ r1 Hr1) as (r2 & Hr2 & Hc2 & Hle2 & Hmin2).
    exists r2. cbn [fold_left]. split; [done|]. lia.
Qed.

(** A window no candidate belongs to gets no closing. *)
Lemma accept_fold_absent (cands : list Candidate)
      (st : gmap Z Z * gmap Z Z * list Closing) :
  Forall (fun c => c_windowId c <> windowId) cands ->
  closing_count windowId (fold_left (accept_step now minTabs allTabs) cands st).2
  = closing_count windowId st.2.
Proof.
  intros Hc. revert st. induction Hc as [|c cands Hne _ IH]; intros st; [done|].
  cbn [fold_left]. rewrite IH. destruct st as [[rem la] acc].
  unfold accept_step. destruct (at_floor _ _ _); [done|]. simpl.
  destruct (List.find _ allTabs); [|done].
  rewrite closing_count_app.
  rewrite (proj2 (closing_count_one (mkClosing (c_id c) (c_windowId c) t))) by done.
  lia.
Qed.

Lemma accept_fold_valid (cands : list Candidate)
      (st : gmap Z Z * gmap Z Z * list Closing) :
  Forall (candidate_of allTabs) cands ->
  Forall (closing_of allTabs) st.2 ->
  Forall (closing_of allTabs) (fold_left (accept_step now minTabs allTabs) cands st).2.
Proof.
  intros Hc. revert st. induction Hc as [|c cands Hof _ IH]; intros st Hst; [done|].
  cbn [fold_left]. apply IH. destruct st as [[rem la] acc].
  unfold accept_step. destruct (at_floor _ _ _); [done|]. simpl in *.
  destruct (List.find _ allTabs); [|done].
  apply Forall_app. split; [done|]. constructor; [|constructor]. exact Hof.
Qed.

End AcceptLoop.

Section PlanFacts.
Context `{UrlParser}.

Lemma insert_by_elapsed_Forall (P : Candidate -> Prop) (c : Candidate) (l : list Candidate) :
  P c -> Forall P l -> Forall P (insert_by_elapsed c l).
Proof.
  intros Hc Hl. induction Hl as [|d l Hd Hl IH]; simpl.
  - by constructor.
  - destruct (_ <=? _); by repeat constructor.
Qed.

Lemma sort_by_elapsed_Forall (P : Candidate -> Prop) (l : list Candidate) :
  Forall P l -> Forall P (sort_by_elapsed l).
Proof.
  unfold sort_by_elapsed. induction 1; simpl; [done|].
  by apply insert_by_elapsed_Forall.
Qed.

Lemma filter_Forall {A} (P : A -> Prop) (f : A -> bool) (l : list A) :
  Forall P l -> Forall P (List.filter f l).
Proof. induction 1; simpl; [done|]. destruct (f x); by try constructor. Qed.

Lemma filter_Forall_true {A} (f : A -> bool) (l : list A) :
  Forall (fun x => f x = true) (List.filter f l).
Proof.
  induction l as [|x l IH]; simpl; [done|].
  destruct (f x) eqn:Hx; by try constructor.
Qed.

(** Every candidate the scan records is a tab of [allTabs]. *)
Lemma scan_fold_valid (s : Settings) (now limitMs : Z) (debounce : option Z)
      (allTabs tabs : list Tab) (st : gmap Z Z * list Candidate) :
  Forall (fun t => t ∈ allTabs) tabs ->
  Forall (candidate_of allTabs) st.2 ->
  Forall (candidate_of allTabs)
         (fold_left (scan_step s now limitMs debounce) tabs st).2.
Proof.
  intros Ht. revert st. induction Ht as [|tab tabs Hin _ IH]; intros st Hst; [done|].
  cbn [fold_left]. apply IH. destruct st as [la cands]. unfold scan_step.
  repeat case_match; simpl in *; try done.
  apply Forall_app. split; [done|]. constructor; [|constructor].
  by exists tab.
Qed.

Lemma inactive_plan_valid (s : Settings) (now : Z) (debounce : option Z)
      (lastAccessedMap : gmap Z Z) (allTabs : list Tab) :
  Forall (closing_of allTabs)
         (inactive_plan s now debounce lastAccessedMap allTabs).2.
Proof.
  unfold inactive_plan.
  destruct (fold_left _ allTabs _) as [la cands] eqn:Hscan.
  destruct (fold_left (accept_step _ _ _) _ _) as [[rem la'] acc] eqn:Hacc.
  simpl.
  change acc with ((rem, la', acc).2). rewrite <- Hacc.
  apply accept_fold_valid; [|done].
  apply filter_Forall, sort_by_elapsed_Forall.
  change cands with ((la, cands).2). rewrite <- Hscan.
  apply scan_fold_valid; [|done].
  apply Forall_forall. auto.
Qed.

(** The budget of a window: its tabs above the floor. *)
Lemma inactive_plan_floor (s : Settings) (now : Z) (debounce : option Z)
      (lastAccessedMap : gmap Z Z) (allTabs : list Tab) (windowId : Z) :
  Z.of_nat (closing_count windowId
              (inactive_plan s now debounce lastAccessedMap allTabs).2)
  <= Z.max 0 (Z.of_nat (List.length (query_window allTabs windowId))
              - effective_minTabs s).
Proof.
  unfold inactive_plan.
  destruct (fold_left _ allTabs _) as [la cands] eqn:Hscan.
  set (rem0 := (fun tabs => Z.of_nat (List.length tabs)) <$> group_by_window allTabs).
  set (eligible := List.filter _ (sort_by_elapsed cands)).
  destruct (fold_left (accept_step _ _ _) _ _) as [[rem la'] acc] eqn:Hacc.
  simpl.
  destruct (rem0 !! windowId) as [n0|] eqn:Hn0.
  - pose proof (windowRemaining_lookup allTabs windowId n0 Hn0) as Hn.
    destruct (accept_fold_window now (effective_minTabs s) allTabs windowId eligible
                (rem0, refresh_small_windows now (effective_minTabs s)
                         (group_by_window allTabs) la, []) n0 Hn0)
      as (r' & _ & Hc & Hle & Hmin).
    rewrite Hacc in Hc. simpl in Hc. unfold closing_count in Hc at 2. simpl in Hc. lia.
  - pose proof (accept_fold_absent now (effective_minTabs s) allTabs windowId eligible
                  (rem0, refresh_small_windows now (effective_minTabs s)
                           (group_by_window allTabs) la, [])) as Ha.
    rewrite Hacc in Ha. simpl in Ha. rewrite Ha; [unfold closing_count; simpl; lia|].
    eapply Forall_impl; [apply filter_Forall_true|].
    intros c Hc Heq. simpl in Hc. unfold above_floor in Hc.
    by rewrite Heq, Hn0 in Hc.
Qed.

End PlanFacts.

Section RemovalFacts.
Context `{UrlParser}.

Lemma filter_all {A} (f : A -> bool) (l : list A) :
  Forall (fun x => f x = true) l -> List.filter f l = l.
Proof. induction 1 as [|x l Hx _ IH]; simpl; [done|]. by rewrite Hx, IH. Qed.

Lemma filter_filter {A} (f g : A -> bool) (l : list A) :
  List.filter f (List.filter g l) = List.filter (fun x => g x && f x) l.
Proof.
  induction l as [|x l IH]; simpl; [done|].
  destruct (g x); simpl; [destruct (f x)|]; by rewrite IH.
Qed.

Lemma filter_ext' {A} (f g : A -> bool) (l : list A) :
  (forall x, f x = g x) -> List.filter f l = List.filter g l.
Proof. intros E. induction l as [|x l IH]; simpl; [done|]. by rewrite E, IH. Qed.

Lemma tabs_remove_tabs (tabId : Z) (w : World) :
  w_tabs (snd (tabs_remove tabId w))
  = List.filter (fun t => negb (tab_id t =? tabId)) (w_tabs w).
Proof.
  unfold tabs_remove. destruct (is_open tabId (w_tabs w)) eqn:Ho; simpl; [done|].
  symmetry. apply filter_all. apply Forall_forall. intros t Ht.
  apply negb_true_iff. apply not_true_is_false. intros Heq.
  assert (is_open tabId (w_tabs w) = true); [|congruence].
  apply existsb_exists. exists t. split; [by apply list_elem_of_In | done].
Qed.

Lemma remove_all_tabs (ids : list Z) (w : World) :
  w_tabs (snd (remove_all ids w)) = without ids (w_tabs w).
Proof.
  revert w. induction ids as [|i ids IH]; intros w.
  - simpl. unfold without. symmetry. apply filter_all. by apply Forall_forall.
  - cbn [remove_all]. rewrite !run_bind. simpl.
    rewrite IH, tabs_remove_tabs. unfold without. rewrite filter_filter.
    apply filter_ext'. intros t. simpl. by rewrite negb_orb.
Qed.

Lemma reports_only_tabs (w w' : World) : reports_only w w' -> w_tabs w' = w_tabs w.
Proof. by intros (evs & -> & _). Qed.

Lemma addToCorral_tabs (clock : Clock) (tabs : list Tab) (w : World) :
  w_tabs (snd (addToCorral clock tabs w)) = w_tabs w.
Proof.
  unfold addToCorral. rewrite !run_bind. simpl. by destruct (corral_after _ _ _ _).
Qed.

Lemma incrementInactiveClosed_tabs (clock : Clock) (count : Z) (w : World) :
  w_tabs (snd (incrementInactiveClosed clock count w)) = w_tabs w.
Proof. reflexivity. Qed.

(** The open tabs after a pass: those of before, without the closings. *)
Lemma doInactiveCheck_tabs (clock : Clock) (w : World) :
  w_tabs (run (_doInactiveCheck clock) w)
  = if inactiveEnabled (w_settings w)
    then without
           (map cl_id (inactive_plan (w_settings w) (now clock) (activatedDebounceTabId w)
                                     (tabLastAccessed w) (w_tabs w)).2)
           (w_tabs w)
    else w_tabs w.
Proof.
  unfold run, _doInactiveCheck. rewrite run_bind. simpl.
  destruct (inactiveEnabled (w_settings w)); simpl; [|done].
  rewrite !run_bind. simpl.
  destruct (inactive_plan _ _ _ _ _) as [la plan]. simpl.
  rewrite run_bind. simpl.
  destruct (Z.ltb_spec 0 (Z.of_nat (List.length plan))) as [Hpos|Hzero].
  - rewrite !run_bind.
    rewrite (reports_only_tabs _ _ (updateBadge_reports _)).
    rewrite (reports_only_tabs _ _ (broadcastTabCount_reports _)).
    unfold persistTabActivityNow. rewrite !run_bind.
    cbn -[remove_all addToCorral incrementInactiveClosed].
    by rewrite incrementInactiveClosed_tabs, addToCorral_tabs, remove_all_tabs.
  - destruct plan; [|simpl in Hzero; lia].
    simpl. unfold without. symmetry. apply filter_all. by apply Forall_forall.
Qed.

End RemovalFacts.

Section FloorCounting.
Context `{UrlParser}.

Lemma NoDup_map_inj {A B} (f : A -> B) (l : list A) (x y : A) :
  NoDup (map f l) -> x ∈ l -> y ∈ l -> f x = f y -> x = y.
Proof.
  induction l as [|a l IH]; simpl; intros Hnd Hx Hy Hf.
  - by apply elem_of_nil in Hx.
  - apply NoDup_cons in Hnd as [Ha Hnd].
    apply elem_of_cons in Hx as [->|Hx], Hy as [->|Hy]; auto.
    + exfalso. apply Ha. rewrite Hf. apply list_elem_of_fmap. by exists y.
    + exfalso. apply Ha. rewrite <- Hf. apply list_elem_of_fmap. by exists x.
Qed.

Lemma NoDup_map_filter {A B} (f : A -> B) (p : A -> bool) (l : list A) :
  NoDup (map f l) -> NoDup (map f (List.filter p l)).
Proof.
  induction l as [|a l IH]; simpl; [done|].
  intros [Ha Hnd]%NoDup_cons. destruct (p a); simpl; [|auto].
  apply NoDup_cons. split; [|auto].
  intros (x & Hfx & Hx)%list_elem_of_fmap. apply Ha.
  apply list_elem_of_fmap. exists x. split; [done|].
  apply list_elem_of_In in Hx. apply List.filter_In in Hx as [Hx _].
  by apply list_elem_of_In.
Qed.

(** With distinct tab ids, a window loses no more tabs than the
    closings that name it. *)
Lemma window_loss_bound (allTabs : list Tab) (plan : list Closing) (windowId : Z) :
  NoDup (map tab_id allTabs) ->
  Forall (closing_of allTabs) plan ->
  (List.length (query_window allTabs windowId)
   <= List.length (query_window (without (map cl_id plan) allTabs) windowId)
      + closing_count windowId plan)%nat.
Proof.
  intros Hnd Hplan.
  set (gone := fun t : Tab => existsb (fun i => tab_id t =? i) (map cl_id plan)).
  assert (Hq : query_window (without (map cl_id plan) allTabs) windowId
               = List.filter (fun t => negb (gone t)) (query_window allTabs windowId)).
  { unfold query_window, without. rewrite !filter_filter.
    apply filter_ext'. intros t. apply andb_comm. }
  rewrite Hq.
  pose proof (List.filter_length gone (query_window allTabs windowId)) as Hlen.
  enough (List.length (List.filter gone (query_window allTabs windowId))
          <= closing_count windowId plan)%nat by lia.
  unfold closing_count.
  rewrite <- (length_map tab_id), <- (length_map cl_id).
  apply submseteq_length, NoDup_submseteq.
  { apply NoDup_map_filter. unfold query_window. by apply NoDup_map_filter. }
  intros i (t & -> & Ht)%list_elem_of_fmap.
  apply list_elem_of_In, List.filter_In in Ht as [Ht Hgone].
  apply List.filter_In in Ht as [Ht Hw]. apply Z.eqb_eq in Hw.
  apply existsb_exists in Hgone as (i & Hi & Heq). apply Z.eqb_eq in Heq.
  apply list_elem_of_In, list_elem_of_fmap in Hi as (c & -> & Hc).
  rewrite Forall_forall in Hplan.
  destruct (Hplan c Hc) as (t' & Ht' & Hid & Hwin).
  assert (t' = t).
  { apply (NoDup_map_inj tab_id allTabs); [done | done | by apply list_elem_of_In | congruence]. }
  subst t'. apply list_elem_of_fmap. exists c. split; [done|].
  apply list_elem_of_In, List.filter_In. split; [by apply list_elem_of_In|].
  apply Z.eqb_eq. congruence.
Qed.

End FloorCounting.

(** C2. In one pass of the reaper the closings of a window number at most
    its tab count minus the effective [minTabs] (none when the window is at
    or below it), however many of its tabs are idle. With distinct tab ids
    the window therefore loses at most that many tabs: it keeps at least
    [minTabs] tabs when it had that many, and all its tabs otherwise. *)
Theorem reaper_keeps_window_floor `{UrlParser}
        (clock : Clock) (w : World) (windowId : Z) :
  let floor := effective_minTabs (w_settings w) in
  let before := Z.of_nat (List.length (query_window (w_tabs w) windowId)) in
  let plan := (inactive_plan (w_settings w) (now clock) (activatedDebounceTabId w)
                             (tabLastAccessed w) (w_tabs w)).2 in
  let w' := run (_doInactiveCheck clock) w in
  let after := Z.of_nat (List.length (query_window (w_tabs w') windowId)) in
  Z.of_nat (closing_count windowId plan) <= Z.max 0 (before - floor)
  /\ (w_tabs w' = w_tabs w \/ w_tabs w' = without (map cl_id plan) (w_tabs w))
  /\ (NoDup (map tab_id (w_tabs w)) ->
      before - after <= Z.max 0 (before - floor)
      /\ Z.min before floor <= after
      /\ (floor <= before -> floor <= after)).
Proof.
  intros floor before plan w' after.
  pose proof (inactive_plan_floor (w_settings w) (now clock) (activatedDebounceTabId w)
                                  (tabLastAccessed w) (w_tabs w) windowId) as Hfloor.
  fold plan before floor in Hfloor.
  assert (Htabs : w_tabs w' = w_tabs w \/ w_tabs w' = without (map cl_id plan) (w_tabs w)).
  { subst w'. rewrite doInactiveCheck_tabs. destruct (inactiveEnabled _); auto. }
  split; [done|]. split; [done|].
  intros Hnd.
  assert (before - after <= Z.of_nat (closing_count windowId plan)).
  { subst after. destruct Htabs as [-> | ->]; [fold before; lia|].
    pose proof (window_loss_bound (w_tabs w) plan windowId Hnd
                  (inactive_plan_valid _ _ _ _ _)).
    subst before. lia. }
  lia.
Qed.

Lemma reaper_keeps_window_floor_witness :
  let s := Sample.with_reaper 1 (Some 2) DEFAULT_SETTINGS in
  let w := set_tabLastAccessed (<[1 := 1000]> (<[2 := 1000]> (<[3 := 1000]> (∅ : gmap Z Z))))
             (Sample.world Sample.three_tabs s) in
  let w' := run (_doInactiveCheck (H := simple_parser) Sample.clock) w in
  NoDup (map tab_id (w_tabs w))
  /\ 2 <= Z.of_nat (List.length (query_window (w_tabs w') 1)).
Proof.
  intros s w w'.
  assert (Hnd : NoDup (map tab_id (w_tabs w))).
  { simpl. repeat (apply NoDup_cons; split; [rewrite ?elem_of_cons, elem_of_nil; lia|]).
    apply NoDup_nil_2. }
  split; [exact Hnd|].
  destruct (reaper_keeps_window_floor (H := simple_parser) Sample.clock w 1)
    as (_ & _ & Hkeep).
  destruct (Hkeep Hnd) as (_ & _ & Hfloor).
  apply Hfloor. vm_compute. discriminate.
Defined.

(** * Further properties of the script *)

(** ** Streaks and the stats store *)

Lemma falsy_false (stored : option string) (d : string) :
  stored = Some d -> d <> "" -> falsy stored = false.
Proof. intros -> Hd. simpl. by apply String.eqb_neq. Qed.

Lemma updateStreak_bounds (clock : Clock) (stats : Stats) :
  currentStreak (updateStreak clock stats) <= bestStreak (updateStreak clock stats)
  /\ bestStreak stats <= bestStreak (updateStreak clock stats)
  /\ lastActiveDate (updateStreak clock stats) = Some (today clock).
Proof.
  unfold updateStreak.
  destruct (falsy (lastActiveDate stats)) eqn:Hf;
    [|destruct (date_is (lastActiveDate stats) (today clock)) eqn:Ht;
      [apply date_is_true in Ht
      |destruct (date_is (lastActiveDate stats) (yesterday clock)) eqn:Hy]];
    match goal with
    | |- context [?a <? ?b] => destruct (Z.ltb_spec a b)
    end; simpl in *; repeat split; lia || done.
Qed.

(** After [updateStreak] the best streak is at least the current one, it
    never went down, and the last active day is today. *)
Theorem updateStreak_best_streak (clock : Clock) (stats : Stats) :
  let stats' := updateStreak clock stats in
  currentStreak stats' <= bestStreak stats'
  /\ bestStreak stats <= bestStreak stats'
  /\ lastActiveDate stats' = Some (today clock).
Proof. apply updateStreak_bounds. Qed.

(** How the current streak moves: unchanged on a day already counted, one
    more when the last active day was yesterday, back to 1 after a gap or
    on first use. *)
Theorem updateStreak_transitions (clock : Clock) (stats : Stats) :
  today clock <> "" -> yesterday clock <> "" -> yesterday clock <> today clock ->
  let stats' := updateStreak clock stats in
  (lastActiveDate stats = Some (today clock) ->
   currentStreak stats' = currentStreak stats)
  /\ (lastActiveDate stats = Some (yesterday clock) ->
      currentStreak stats' = currentStreak stats + 1)
  /\ (lastActiveDate stats <> Some (today clock) ->
      lastActiveDate stats <> Some (yesterday clock) ->
      currentStreak stats' = 1).
Proof.
  intros Ht Hy Hne. unfold updateStreak. repeat split.
  - intros Hl. rewrite (falsy_false _ _ Hl Ht).
    rewrite (proj2 (date_is_true _ _) Hl). by destruct (_ <? _).
  - intros Hl. rewrite (falsy_false _ _ Hl Hy).
    rewrite (proj2 (date_is_false _ _)) by (rewrite Hl; congruence).
    rewrite (proj2 (date_is_true _ _) Hl). by destruct (_ <? _).
  - intros Hnt Hny.
    rewrite (proj2 (date_is_false _ _) Hnt), (proj2 (date_is_false _ _) Hny).
    destruct (falsy _); by destruct (_ <? _).
Qed.

Lemma updateStreak_transitions_witness :
  let stats := with_lastActiveDate (Some "Sun Nov 01 2026")
                 (with_currentStreak 4 DEFAULT_STATS) in
  currentStreak (updateStreak Sample.clock stats) = 5.
Proof.
  intros stats.
  destruct (updateStreak_transitions Sample.clock stats) as (_ & Hnext & _);
    try discriminate.
  apply Hnext. reflexivity.
Defined.

Lemma updateStreak_same_day (clock : Clock) (stats : Stats) :
  today clock <> "" ->
  lastActiveDate stats = Some (today clock) ->
  currentStreak stats <= bestStreak stats ->
  updateStreak clock stats = stats.
Proof.
  intros Ht Hl Hb. unfold updateStreak.
  rewrite (falsy_false _ _ Hl Ht), (proj2 (date_is_true _ _) Hl).
  by rewrite (proj2 (Z.ltb_ge _ _)) by lia.
Qed.

(** Reading the stats twice on one day gives what the first read gave: the
    lazy resets and the streak update are applied once. *)
Theorem getStats_idempotent_same_day (clock : Clock) (stored : Stats) :
  today clock <> "" ->
  getStats_of clock (getStats_of clock stored) = getStats_of clock stored.
Proof.
  intros Ht.
  destruct (getStats_of_counters clock stored)
    as (_ & Hzero & _ & _ & _ & _ & Hlb & Hws).
  set (once := getStats_of clock stored) in *.
  assert (Hstreak : currentStreak once <= bestStreak once
                    /\ lastActiveDate once = Some (today clock)).
  { subst once. unfold getStats_of.
    match goal with
    | |- context [updateStreak clock ?x] =>
        destruct (updateStreak_bounds clock x) as (? & _ & ?)
    end. by split. }
  destruct Hstreak as [Hbest Hactive].
  unfold getStats_of at 1. cbv zeta. rewrite Hlb.
  destruct (date_is (lastBlockDate stored) (today clock)) eqn:Hd; simpl;
    rewrite Hws, (proj2 (date_is_true (Some (weekStart clock)) _)) by done; simpl.
  - by apply updateStreak_same_day.
  - rewrite updateStreak_same_day; try done.
    specialize (Hzero eq_refl). destruct once; simpl in *. by subst.
Qed.

Lemma getStats_idempotent_same_day_witness :
  let stale := with_lastBlockDate (Some "Sun Nov 01 2026")
                 (with_blockedToday 7 DEFAULT_STATS) in
  getStats_of Sample.clock (getStats_of Sample.clock stale)
  = getStats_of Sample.clock stale.
Proof.
  intros stale. apply (getStats_idempotent_same_day Sample.clock stale).
  discriminate.
Defined.

(** ** Urls, counts and the allowlist *)

Lemma startsWith_inv (u p : string) :
  startsWith u p = true -> exists r, u = p +:+ r.
Proof. intros Hp. eexists. by apply str_prefix_inv. Qed.

Section UrlKinds.
Context `{UrlParser}.

(** A url the limiter treats as real (http or https) is never one the
    reaper treats as internal. *)
Theorem real_url_not_internal (url : option string) :
  isRealUrl url = true -> isInternalUrl url = false.
Proof.
  destruct url as [u|]; [|done]. unfold isRealUrl, isInternalUrl.
  destruct (String.eqb u ""); [done|].
  destruct (String.eqb u "about:blank" || String.eqb u "about:newtab"); [done|].
  destruct (startsWith u "safari-resource:"); [done|].
  destruct (startsWith u "favorites://"); [done|].
  intros [Hh|Hh]%orb_true_iff; apply startsWith_inv in Hh as [r ->]; reflexivity.
Qed.

Lemma real_url_not_internal_witness :
  isRealUrl (Some "https://example.com/") = true
  /\ isInternalUrl (Some "https://example.com/") = false.
Proof.
  split; [reflexivity|]. apply real_url_not_internal. reflexivity.
Defined.

Lemma filter_filter_length {A} (f g : A -> bool) (l : list A) :
  (List.length (List.filter g (List.filter f l)) <= List.length (List.filter g l))%nat.
Proof.
  induction l as [|x l IH]; simpl; [lia|].
  destruct (f x); simpl; destruct (g x); simpl; lia.
Qed.

Lemma counted_filter (s : Settings) (f : Tab -> bool) (tabs : list Tab) :
  counted s (List.filter f tabs) <= counted s tabs.
Proof.
  unfold counted. destruct (_ && _).
  - pose proof (filter_filter_length f
                  (fun tab => negb (isUrlAllowed (tab_url tab) (Some (allowlist s)))) tabs).
    lia.
  - pose proof (List.filter_length_le f tabs). lia.
Qed.

Lemma counted_bounds (s : Settings) (tabs : list Tab) :
  0 <= counted s tabs <= Z.of_nat (List.length tabs).
Proof.
  unfold counted. destruct (_ && _); [|lia].
  pose proof (List.filter_length_le
                (fun tab => negb (isUrlAllowed (tab_url tab) (Some (allowlist s)))) tabs).
  lia.
Qed.

(** A count is never negative and never above the number of tabs the host
    reports for its scope; the count of a window is never above the global
    count, so the global limit is the stricter of the two. *)
Theorem tab_count_bounds (host_tabs : list Tab) (windowId : Z) (s : Settings) :
  0 <= getWindowTabCount host_tabs windowId (Some s)
  /\ getWindowTabCount host_tabs windowId (Some s)
     <= Z.of_nat (List.length (query_window host_tabs windowId))
  /\ getWindowTabCount host_tabs windowId (Some s) <= getGlobalTabCount host_tabs (Some s)
  /\ getGlobalTabCount host_tabs (Some s) <= Z.of_nat (List.length host_tabs)
  /\ getCurrentTabCount host_tabs windowId s <= getGlobalTabCount host_tabs (Some s).
Proof.
  unfold getCurrentTabCount, getWindowTabCount, getGlobalTabCount, query_all, query_window.
  pose proof (counted_bounds s host_tabs).
  pose proof (counted_bounds s (List.filter (fun t => tab_windowId t =? windowId) host_tabs)).
  pose proof (counted_filter s (fun t => tab_windowId t =? windowId) host_tabs).
  destruct (globalLimit s); lia.
Qed.

(** Adding entries to the allowlist never turns an allowed url into a
    refused one. *)
Theorem isUrlAllowed_monotone (url : option string) (l l' : list string) :
  isUrlAllowed url (Some l) = true ->
  (forall domain, domain ∈ l -> domain ∈ l') ->
  isUrlAllowed url (Some l') = true.
Proof.
  intros Ha Hsub. destruct url as [u|]; [|done].
  apply isUrlAllowed_true_iff in Ha as (Hu & h & d & Hh & Hd & Hm).
  apply isUrlAllowed_true_iff. split; [done|]. exists h, d. auto.
Qed.

End UrlKinds.

Lemma isUrlAllowed_monotone_witness :
  isUrlAllowed (H := simple_parser) (Some "https://example.com/") (Some ["example.com"]) = true
  /\ isUrlAllowed (H := simple_parser) (Some "https://example.com/")
       (Some ["other.org"; "example.com"]) = true.
Proof.
  split; [reflexivity|].
  apply (isUrlAllowed_monotone (H := simple_parser) _ ["example.com"]); [reflexivity|].
  intros domain Hd. apply elem_of_cons. by right.
Defined.

(** ** Enforcement: when a tab is closed and when it is not *)

(** What every run of [closeTab] guarantees. *)
Lemma closeTab_summary (clock : Clock) (tabId : Z) (w : World) :
  let w' := run (closeTab clock tabId) w in
  (tabId ∉ allowlistTabs w')
  /\ pendingTabs w' !! tabId = None
  /\ (is_open tabId (w_tabs w) = true ->
      w_tabs w' = List.filter (fun t => negb (tab_id t =? tabId)) (w_tabs w)
      /\ blockedTotal (w_stats w') = blockedTotal (w_stats w) + 1).
Proof.
  intros w'. subst w'.
  assert (Hnot : tabId ∉ allowlistTabs w ∖ {[tabId]}).
  { intros [_ Hn]%elem_of_difference. apply Hn. by apply elem_of_singleton. }
  destruct (is_open tabId (w_tabs w)) eqn:Ho.
  - rewrite closeTab_open by done. simpl.
    split; [done|]. split; [apply lookup_delete_eq|]. intros _. split; [done|].
    destruct (count_block_counters clock (getStats_of clock (w_stats w)))
      as (_ & _ & -> & _).
    by destruct (getStats_of_counters clock (w_stats w)) as (_ & _ & _ & _ & -> & _).
  - rewrite closeTab_gone by done. simpl.
    split; [done|]. split; [apply lookup_delete_eq | done].
Qed.

(** [closeTab] always forgets the tab in [pendingTabs] and
    [allowlistTabs]. A block is counted exactly when the host removed the
    tab: if the tab is already gone the stats and the open tabs stay as
    they were. *)
Theorem closeTab_counts_only_real_closes (clock : Clock) (tabId : Z) (w : World) :
  let w' := run (closeTab clock tabId) w in
  pendingTabs w' !! tabId = None
  /\ (tabId ∉ allowlistTabs w')
  /\ (is_open tabId (w_tabs w) = false ->
      w_stats w' = w_stats w /\ w_tabs w' = w_tabs w
      /\ w_trace w' = TabsRemove tabId false :: w_trace w)
  /\ (is_open tabId (w_tabs w) = true ->
      blockedTotal (w_stats w') = blockedTotal (w_stats w) + 1
      /\ is_open tabId (w_tabs w') = false).
Proof.
  intros w'. subst w'. destruct (is_open tabId (w_tabs w)) eqn:Ho.
  - rewrite closeTab_open by done. simpl.
    split; [apply lookup_delete_eq|].
    split; [intros [_ Hn]%elem_of_difference; apply Hn; by apply elem_of_singleton|].
    split; [done|]. intros _. split.
    + destruct (count_block_counters clock (getStats_of clock (w_stats w)))
        as (_ & _ & -> & _).
      by destruct (getStats_of_counters clock (w_stats w)) as (_ & _ & _ & _ & -> & _).
    + apply not_true_is_false. intros (t & Ht & Hid)%existsb_exists.
      apply List.filter_In in Ht as [_ Hne]. by rewrite Hid in Hne.
  - rewrite closeTab_gone by done. simpl.
    split; [apply lookup_delete_eq|].
    split; [intros [_ Hn]%elem_of_difference; apply Hn; by apply elem_of_singleton|]. by split.
Qed.

Lemma closeTab_counts_only_real_closes_witness :
  let w := Sample.world Sample.three_tabs DEFAULT_SETTINGS in
  w_stats (run (closeTab Sample.clock 9) w) = w_stats w.
Proof.
  intros w.
  destruct (closeTab_counts_only_real_closes Sample.clock 9 w)
    as (_ & _ & Hgone & _).
  apply Hgone. reflexivity.
Defined.

(** The part of [handleTabCreated] before the decision: the allowlist
    tracking, the broadcast and the badge. *)
Lemma handleTabCreated_prelude `{UrlParser} (clock : Clock) (w : World) (tab : Tab) :
  enabled (w_settings w) = true ->
  tab_id tab ∉ corralRestoredTabs w ->
  let s := w_settings w in
  let listed := allowlistEnabled s && isRealUrl (tab_url tab)
                && isUrlAllowed (tab_url tab) (Some (allowlist s)) in
  let tracked := if listed then {[tab_id tab]} ∪ allowlistTabs w else allowlistTabs w in
  let tabCount := getCurrentTabCount (w_tabs w) (tab_windowId tab) s in
  exists reports,
    Forall is_report reports
    /\ run (handleTabCreated clock tab) w
       = run (if tabCount <=? maxTabs s then mret tt
              else if allowlistEnabled s then
                     if isRealUrl (tab_url tab) then
                       if isUrlAllowed (tab_url tab) (Some (allowlist s)) then mret tt
                       else closeTab clock (tab_id tab)
                     else
                       modify (fun w => set_pendingTabs
                                          (<[tab_id tab := mkPending (tab_windowId tab) (now clock)]>
                                             (pendingTabs w)) w) ;;
                       call (SetTimeout (CheckPendingTab (tab_id tab)) (PENDING_TIMEOUT + 50))
                   else closeTab clock (tab_id tab))
           (set_trace (reports ++ w_trace w) (set_allowlistTabs tracked w)).
Proof.
  intros Hen Hre s listed tracked tabCount.
  unfold run, handleTabCreated. rewrite run_bind. simpl. rewrite Hen. simpl.
  rewrite run_bind. simpl. rewrite bool_decide_eq_false_2 by done.
  rewrite !run_bind. fold s listed.
  assert (Hw1 : snd (when listed (track_allowlisted (tab_id tab)) w)
                = set_allowlistTabs tracked w).
  { subst tracked. destruct listed; [done | by destruct w]. }
  rewrite Hw1. simpl.
  destruct (updateBadge_reports
              (set_trace (SendTabCount tabCount :: w_trace w) (set_allowlistTabs tracked w)))
    as (evs & Hb & Hev).
  unfold currentTabCount, gets. simpl. fold s tabCount. fold tabCount in Hb.
  rewrite Hb. simpl.
  exists (evs ++ [SendTabCount tabCount]). split.
  - apply Forall_app. split; [done | by repeat constructor].
  - by rewrite <- app_assoc.
Qed.

(** Whatever the settings, a new tab that leaves the count within the
    limit is not closed: the open tabs, the stats and the pending tabs are
    untouched and only reports are sent. *)
Theorem handleTabCreated_within_limit `{UrlParser} (clock : Clock) (w : World) (tab : Tab) :
  getCurrentTabCount (w_tabs w) (tab_windowId tab) (w_settings w)
  <= maxTabs (w_settings w) ->
  let w' := run (handleTabCreated clock tab) w in
  w_tabs w' = w_tabs w
  /\ w_stats w' = w_stats w
  /\ pendingTabs w' = pendingTabs w
  /\ exists reports, w_trace w' = reports ++ w_trace w /\ Forall is_report reports.
Proof.
  intros Hle w'. subst w'.
  destruct (enabled (w_settings w)) eqn:Hen.
  - destruct (decide (tab_id tab ∈ corralRestoredTabs w)) as [Hre|Hre].
    + unfold run, handleTabCreated. rewrite run_bind. simpl. rewrite Hen. simpl.
      rewrite run_bind. simpl. rewrite bool_decide_eq_true_2 by done.
      destruct (broadcastTabCount_reports w) as (evs & -> & Hev). simpl.
      repeat split; try done. by exists evs.
    + destruct (handleTabCreated_prelude clock w tab Hen Hre) as (evs & Hev & ->).
      rewrite (proj2 (Z.leb_le _ _) Hle). simpl.
      repeat split; try done. by exists evs.
  - unfold run, handleTabCreated. rewrite run_bind. simpl. rewrite Hen. simpl.
    repeat split; try done. by exists [].
Qed.

Lemma handleTabCreated_within_limit_witness :
  let tab := Sample.page 3 1 "https://c.com/" in
  let w := Sample.world Sample.three_tabs DEFAULT_SETTINGS in
  w_tabs (run (handleTabCreated (H := simple_parser) Sample.clock tab) w) = w_tabs w.
Proof.
  intros tab w.
  destruct (handleTabCreated_within_limit (H := simple_parser) Sample.clock w tab)
    as (Htabs & _); [vm_compute; discriminate | exact Htabs].
Defined.




(** *** Navigation updates *)

Lemma isRealUrl_not_falsy (url : option string) :
  isRealUrl url = true -> falsy url = false.
Proof.
  destruct url as [u|]; [|done]. simpl. by destruct (String.eqb u "").
Qed.

(** [handleTabUpdated] past its guards: enforcement and allowlisting on,
    and a real url. *)
Lemma handleTabUpdated_enforced `{UrlParser} (clock : Clock) (tabId : Z)
      (changeUrl : option string) (tab : Tab) (w : World) :
  let url := if falsy changeUrl then tab_url tab else changeUrl in
  let s := w_settings w in
  isRealUrl url = true ->
  enabled s = true -> allowlistEnabled s = true ->
  run (handleTabUpdated clock tabId changeUrl tab) w
  = run (let isNowAllowlisted := isUrlAllowed url (Some (allowlist s)) in
         let wasAllowlisted := bool_decide (tabId ∈ allowlistTabs w) in
         if bool_decide (is_Some (pendingTabs w !! tabId)) then
           forget_pending tabId ;;
           if isNowAllowlisted then track_allowlisted tabId
           else
             tabCount ← currentTabCount (tab_windowId tab) s;
             when (maxTabs s <? tabCount) (closeTab clock tabId)
         else if isNowAllowlisted && negb wasAllowlisted then
           track_allowlisted tabId ;;
           broadcastTabCount
         else if negb isNowAllowlisted && wasAllowlisted then
           untrack_allowlisted tabId ;;
           tabCount ← currentTabCount (tab_windowId tab) s;
           if maxTabs s <? tabCount then closeTab clock tabId
           else broadcastTabCount
         else mret tt) w.
Proof.
  intros url s Hreal Hen Hal. unfold run, handleTabUpdated. fold url.
  rewrite (isRealUrl_not_falsy url Hreal), Hreal. simpl.
  rewrite run_bind. simpl. fold s. rewrite Hen, Hal. simpl.
  rewrite !run_bind. simpl. reflexivity.
Qed.

(** A navigation to an allowlisted url never closes the tab: the tab is
    tracked as allowlisted, it is no longer pending, and the open tabs and
    the stats are untouched. *)
Theorem handleTabUpdated_entering_allowlist_kept `{UrlParser} (clock : Clock)
        (tabId : Z) (changeUrl : option string) (tab : Tab) (w : World) :
  let url := if falsy changeUrl then tab_url tab else changeUrl in
  isRealUrl url = true ->
  enabled (w_settings w) = true -> allowlistEnabled (w_settings w) = true ->
  isUrlAllowed url (Some (allowlist (w_settings w))) = true ->
  let w' := run (handleTabUpdated clock tabId changeUrl tab) w in
  w_tabs w' = w_tabs w
  /\ w_stats w' = w_stats w
  /\ tabId ∈ allowlistTabs w'
  /\ pendingTabs w' !! tabId = None.
Proof.
  intros url Hreal Hen Hal Hallowed w'. subst w'.
  rewrite handleTabUpdated_enforced by done. fold url. rewrite Hallowed. cbv zeta.
  unfold run. case_bool_decide as Hp.
  - rewrite run_bind. simpl. repeat split; try done.
    + apply elem_of_union_l. by apply elem_of_singleton.
    + apply lookup_delete_eq.
  - assert (Hnone : pendingTabs w !! tabId = None).
    { destruct (pendingTabs w !! tabId) eqn:E; [|done]. exfalso. apply Hp. by eexists. }
    simpl. case_bool_decide as Hwas; simpl.
    + by repeat split.
    + rewrite run_bind.
      destruct (broadcastTabCount_reports (snd (track_allowlisted tabId w)))
        as (evs & -> & _). simpl.
      repeat split; try done. apply elem_of_union_l. by apply elem_of_singleton.
Qed.

Lemma handleTabUpdated_entering_allowlist_kept_witness :
  let s := Sample.with_allowlist ["example.com"] DEFAULT_SETTINGS in
  let tab := Sample.page 3 1 "https://example.com/" in
  let w := Sample.world Sample.three_tabs s in
  let w' := run (handleTabUpdated (H := simple_parser) Sample.clock 3
                   (Some "https://example.com/") tab) w in
  w_tabs w' = w_tabs w /\ 3 ∈ allowlistTabs w'.
Proof.
  intros s tab w w'.
  destruct (handleTabUpdated_entering_allowlist_kept (H := simple_parser) Sample.clock 3
              (Some "https://example.com/") tab w) as (Htabs & _ & Hin & _).
  - reflexivity.
  - reflexivity.
  - reflexivity.
  - reflexivity.
  - split; [exact Htabs | exact Hin].
Defined.



(** Once a navigation update has been handled for a tab, with enforcement
    and allowlisting on and a real url, the tab is no longer pending: the
    timer's [checkPendingTab] for it finds nothing to do, so a tab is never
    closed or counted twice. *)
Theorem pending_check_after_update_is_noop `{UrlParser} (clock later : Clock)
        (tabId : Z) (changeUrl : option string) (tab : Tab) (w : World) :
  let url := if falsy changeUrl then tab_url tab else changeUrl in
  isRealUrl url = true ->
  enabled (w_settings w) = true -> allowlistEnabled (w_settings w) = true ->
  let w' := run (handleTabUpdated clock tabId changeUrl tab) w in
  pendingTabs w' !! tabId = None
  /\ run (checkPendingTab later tabId) w' = w'.
Proof.
  intros url Hreal Hen Hal w'.
  assert (Hnone : pendingTabs w' !! tabId = None).
  { subst w'. rewrite handleTabUpdated_enforced by done. fold url. cbv zeta.
    unfold run. case_bool_decide as Hp.
    - rewrite run_bind. simpl.
      destruct (isUrlAllowed url _); [apply lookup_delete_eq|].
      rewrite run_bind. simpl. unfold when.
      destruct (_ <? _); [|apply lookup_delete_eq].
      apply (closeTab_summary clock tabId).
    - assert (Hnone : pendingTabs w !! tabId = None).
      { destruct (pendingTabs w !! tabId) eqn:E; [|done]. exfalso. apply Hp. by eexists. }
      destruct (isUrlAllowed url _); simpl; case_bool_decide; simpl; try done.
      + rewrite run_bind.
        by destruct (broadcastTabCount_reports (snd (track_allowlisted tabId w)))
          as (evs & -> & _).
      + rewrite !run_bind. simpl. destruct (_ <? _).
        * apply (closeTab_summary clock tabId).
        * by destruct (broadcastTabCount_reports
                         (set_allowlistTabs (allowlistTabs w ∖ {[tabId]}) w))
            as (evs & -> & _). }
  split; [done|].
  unfold run, checkPendingTab. rewrite run_bind. simpl. by rewrite Hnone.
Qed.

Lemma pending_check_after_update_is_noop_witness :
  let s := Sample.with_allowlist ["example.com"] DEFAULT_SETTINGS in
  let tab := Sample.page 4 1 "https://d.com/" in
  let w := set_pendingTabs {[4 := mkPending 1 999000]}
             (Sample.world (Sample.three_tabs ++ [tab]) s) in
  let w' := run (handleTabUpdated (H := simple_parser) Sample.clock 4
                   (Some "https://d.com/") tab) w in
  w_tabs w' = Sample.three_tabs
  /\ run (checkPendingTab (H := simple_parser) Sample.clock 4) w' = w'.
Proof.
  intros s tab w w'. split; [reflexivity|].
  apply (pending_check_after_update_is_noop (H := simple_parser) Sample.clock Sample.clock 4
           (Some "https://d.com/") tab w); reflexivity.
Defined.

(** *** Restoring from the corral *)

(** The world after a restore at an index in range. *)
Lemma restoreFromCorral_world (index : Z) (w : World) :
  0 <= index < Z.of_nat (List.length (w_tabCorral w)) ->
  exists entry,
    nth_Z index (w_tabCorral w) = Some entry
    /\ let w1 := run (restoreFromCorral index) w in
       w_tabs w1 = w_tabs w ++ [mkTab (w_nextTabId w) (w_currentWindow w)
                                      (Some (ce_url entry)) None None false false false]
       /\ corralRestoredTabs w1 = {[w_nextTabId w]} ∪ corralRestoredTabs w
       /\ w_settings w1 = w_settings w
       /\ w_stats w1 = w_stats w
       /\ pendingTabs w1 = pendingTabs w
       /\ w_nextTabId w1 = w_nextTabId w + 1.
Proof.
  intros [Hlo Hhi]. unfold run, restoreFromCorral. rewrite run_bind. simpl.
  assert (Hc : (index <? 0) || (Z.of_nat (List.length (w_tabCorral w)) <=? index) = false).
  { apply orb_false_iff. split; [by apply Z.ltb_ge | apply Z.leb_gt; lia]. }
  rewrite Hc. unfold nth_Z. rewrite (proj2 (Z.ltb_ge index 0)) by done.
  destruct (lookup_lt_is_Some_2 (w_tabCorral w) (Z.to_nat index)) as [entry He]; [lia|].
  rewrite He. exists entry. split; [done|]. rewrite !run_bind. simpl. by repeat split.
Qed.

(** A tab reopened from the corral is exempt from the limit: the restore
    opens it on the entry's url and marks its id, and [handleTabCreated]
    for that id closes nothing and counts nothing, however many tabs are
    open. *)
Theorem restored_tab_is_exempt `{UrlParser} (clock : Clock) (index : Z)
        (w : World) (tab : Tab) :
  0 <= index < Z.of_nat (List.length (w_tabCorral w)) ->
  tab_id tab = w_nextTabId w ->
  let w1 := run (restoreFromCorral index) w in
  let w2 := run (handleTabCreated clock tab) w1 in
  (exists entry,
      nth_Z index (w_tabCorral w) = Some entry
      /\ w_tabs w1 = w_tabs w ++ [mkTab (w_nextTabId w) (w_currentWindow w)
                                        (Some (ce_url entry)) None None false false false])
  /\ w_tabs w2 = w_tabs w1
  /\ w_stats w2 = w_stats w
  /\ pendingTabs w2 = pendingTabs w.
Proof.
  intros Hin Hid w1 w2.
  destruct (restoreFromCorral_world index w Hin)
    as (entry & He & Htabs & Hres & Hset & Hstats & Hpend & _).
  fold w1 in Htabs, Hres, Hset, Hstats, Hpend.
  split; [by exists entry|].
  rewrite <- Hstats, <- Hpend. subst w2.
  unfold run, handleTabCreated. rewrite run_bind. simpl.
  destruct (enabled (w_settings w1)); simpl; [|done].
  rewrite run_bind. simpl.
  rewrite bool_decide_eq_true_2
    by (rewrite Hres, Hid; apply elem_of_union_l; by apply elem_of_singleton).
  by destruct (broadcastTabCount_reports w1) as (evs & -> & _).
Qed.

Lemma restored_tab_is_exempt_witness :
  let entry := mkEntry "https://z.com/" "Z" "" 10 in
  let w := set_tabCorral [entry] (Sample.world Sample.three_tabs DEFAULT_SETTINGS) in
  let tab := Sample.page 100 1 "https://z.com/" in
  let w1 := run (restoreFromCorral 0) w in
  let w2 := run (handleTabCreated (H := simple_parser) Sample.clock tab) w1 in
  List.length (w_tabs w2) = 4%nat /\ w_stats w2 = w_stats w.
Proof.
  intros entry w tab w1 w2.
  destruct (restored_tab_is_exempt (H := simple_parser) Sample.clock 0 w tab)
    as (_ & Htabs & Hstats & _).
  - simpl. lia.
  - reflexivity.
  - split; [|exact Hstats]. fold w1 w2 in Htabs. rewrite Htabs. reflexivity.
Defined.

(** ** The corral: expiry and order *)

Lemma filter_same_length {A} (f : A -> bool) (l : list A) :
  List.length (List.filter f l) = List.length l -> List.filter f l = l.
Proof.
  induction l as [|x l IH]; simpl; [done|].
  pose proof (List.filter_length_le f l).
  destruct (f x); simpl; intros Hl; [f_equal; apply IH; lia | lia].
Qed.

(** After [cleanExpiredCorral] with a positive expiry the corral is the old
    one restricted to the entries younger than the expiry, in their order;
    with an expiry of 0 or less nothing happens at all. Open tabs and stats
    are never touched. *)
Theorem cleanExpiredCorral_drops_old_entries (clock : Clock) (w : World) :
  let hours := corralExpireHours (w_settings w) in
  let w' := run (cleanExpiredCorral clock) w in
  (hours <= 0 -> w' = w)
  /\ (0 < hours ->
      w_tabCorral w'
      = List.filter (fun e => now clock - ce_closedAt e <? hours * 60 * 60 * 1000)
                    (w_tabCorral w)
      /\ Forall (fun e => now clock - ce_closedAt e < hours * 3600000) (w_tabCorral w'))
  /\ w_tabs w' = w_tabs w
  /\ w_stats w' = w_stats w.
Proof.
  intros hours w'. subst w'. unfold run, cleanExpiredCorral.
  rewrite run_bind. simpl. fold hours.
  destruct (Z.eqb_spec hours 0) as [Hz|Hnz]; simpl.
  { split; [done|]. split; [lia | done]. }
  destruct (Z.leb_spec hours 0) as [Hneg|Hpos]; simpl.
  { split; [done|]. split; [lia | done]. }
  rewrite run_bind. simpl.
  set (young := fun e : CorralEntry => now clock - ce_closedAt e <? hours * 60 * 60 * 1000).
  assert (Hall : Forall (fun e => now clock - ce_closedAt e < hours * 3600000)
                        (List.filter young (w_tabCorral w))).
  { eapply Forall_impl; [apply (filter_Forall_true young)|].
    intros e He. unfold young in He. apply Z.ltb_lt in He. lia. }
  split; [lia|].
  destruct (Z.eqb_spec (Z.of_nat (List.length (w_tabCorral w))) 0) as [Hempty|Hne].
  { destruct (w_tabCorral w) eqn:Hc; [|simpl in Hempty; lia].
    simpl. rewrite Hc. by repeat split. }
  destruct (Z.eqb_spec (Z.of_nat (List.length (List.filter young (w_tabCorral w))))
                       (Z.of_nat (List.length (w_tabCorral w)))) as [Hsame|Hdiff]; simpl.
  - assert (Hid : List.filter young (w_tabCorral w) = w_tabCorral w)
      by (apply filter_same_length; lia).
    split; [|done]. intros _. rewrite Hid in Hall. by rewrite Hid.
  - by repeat split.
Qed.

Lemma cleanExpiredCorral_drops_old_entries_witness :
  let old := mkEntry "https://a.com/" "A" "" 0 in
  let fresh := mkEntry "https://b.com/" "B" "" 86400000 in
  let clock := mkClock 90000000 "Mon Nov 02 2026" "Sun Nov 01 2026" "Sun Nov 01 2026" in
  let w := set_tabCorral [fresh; old] (Sample.world [] DEFAULT_SETTINGS) in
  w_tabCorral (run (cleanExpiredCorral clock) w) = [fresh].
Proof.
  intros old fresh clock w.
  destruct (cleanExpiredCorral_drops_old_entries clock w) as (_ & Hpos & _).
  destruct Hpos as [Hcorral _]; [reflexivity|].
  rewrite Hcorral. reflexivity.
Defined.

Lemma splice1_sublist {A} (start : Z) (l : list A) : splice1 start l `sublist_of` l.
Proof.
  unfold splice1. set (n := Z.to_nat _).
  rewrite <- (take_drop n l) at 3.
  apply sublist_app; [done|].
  replace (S n) with (n + 1)%nat by lia.
  rewrite <- (drop_drop l 1 n). apply sublist_drop.
Qed.

Lemma sublist_Forall_keep {A} (P : A -> Prop) (l1 l2 : list A) :
  l1 `sublist_of` l2 -> Forall P l2 -> Forall P l1.
Proof.
  induction 1 as [|x l1 l2 _ IH|x l1 l2 _ IH]; intros Hl; [done| |].
  - apply Forall_cons in Hl as [Hx Hl]. constructor; auto.
  - apply Forall_cons in Hl as [_ Hl]. auto.
Qed.

Lemma sublist_StronglySorted {A} (R : A -> A -> Prop) (l1 l2 : list A) :
  l1 `sublist_of` l2 -> StronglySorted R l2 -> StronglySorted R l1.
Proof.
  induction 1 as [|x l1 l2 Hs IH|x l1 l2 _ IH]; intros Hl; [done| |].
  - apply StronglySorted_cons in Hl as [Hx Hl]. apply StronglySorted_cons.
    split; [by eapply sublist_Forall_keep | auto].
  - apply StronglySorted_cons in Hl as [_ Hl]. auto.
Qed.

(** Whatever the dedup option, one turn of the loop of [addToCorral] puts
    the new entry in front of what is left of the corral. *)
Lemma corral_step_shape `{UrlParser} (clock : Clock) (wrangle : string)
      (corral : list CorralEntry) (tab : Tab) :
  exists rest,
    corral_step clock wrangle corral tab = new_entry clock tab :: rest
    /\ rest `sublist_of` corral.
Proof.
  unfold corral_step.
  repeat case_match; eexists; (split; [reflexivity|]);
    try apply splice1_sublist; done.
Qed.

(** The corral stays ordered newest first: if it is so ordered and no
    entry is stamped later than the clock, every add leaves it so ordered,
    whatever the dedup option and the maximum. *)
Theorem addToCorral_keeps_newest_first `{UrlParser} (clock : Clock)
        (tabs : list Tab) (w : World) :
  StronglySorted closed_after (w_tabCorral w) ->
  Forall (fun e => ce_closedAt e <= now clock) (w_tabCorral w) ->
  let corral' := w_tabCorral (run (addToCorral clock tabs) w) in
  StronglySorted closed_after corral'
  /\ Forall (fun e => ce_closedAt e <= now clock) corral'.
Proof.
  intros Hsorted Hbound corral'. subst corral'.
  unfold run, addToCorral. rewrite !run_bind. simpl.
  assert (Hfold : forall wrangle stored,
             StronglySorted closed_after stored ->
             Forall (fun e => ce_closedAt e <= now clock) stored ->
             StronglySorted closed_after (fold_left (corral_step clock wrangle) tabs stored)
             /\ Forall (fun e => ce_closedAt e <= now clock)
                       (fold_left (corral_step clock wrangle) tabs stored)).
  { intros wrangle. induction tabs as [|tab tabs IH]; intros stored Hs Hb; [done|].
    simpl. destruct (corral_step_shape clock wrangle stored tab) as (rest & -> & Hsub).
    pose proof (sublist_Forall_keep _ _ _ Hsub Hb) as Hrest.
    apply IH.
    - apply StronglySorted_cons. split; [done|]. by eapply sublist_StronglySorted.
    - constructor; [simpl; lia | done]. }
  unfold corral_after.
  destruct (Hfold (or_else (Some (wrangleOption (w_settings w))) "exactURLMatch")
                  (w_tabCorral w) Hsorted Hbound) as [Hs Hb].
  destruct (_ <? Z.of_nat _); [destruct (_ <? 0)|]; simpl; try done.
  split.
  - eapply sublist_StronglySorted; [apply sublist_take | done].
  - eapply sublist_Forall_keep; [apply sublist_take | done].
Qed.

Lemma addToCorral_keeps_newest_first_witness :
  let older := mkEntry "https://a.com/" "A" "" 10 in
  let newer := mkEntry "https://b.com/" "B" "" 20 in
  let w := set_tabCorral [newer; older] (Sample.world [] DEFAULT_SETTINGS) in
  StronglySorted closed_after
    (w_tabCorral (run (addToCorral (H := simple_parser) Sample.clock
                         [Sample.page 7 1 "https://a.com/"]) w)).
Proof.
  intros older newer w.
  apply (addToCorral_keeps_newest_first (H := simple_parser) Sample.clock _ w).
  - repeat (apply StronglySorted_cons; split; [repeat constructor; unfold closed_after; simpl; lia|]).
    constructor.
  - repeat constructor; simpl; lia.
Defined.

(** ** The inactivity pass: which tabs it may close *)

Section IdleScan.
Context `{UrlParser}.
Variables (s : Settings) (now limitMs : Z) (debounce : option Z).
Variables (stamps : gmap Z Z) (allTabs : list Tab).

(** One turn of the scan changes the stamp of the scanned tab at most, and
    records it only if it is idle and not spared. *)
Lemma scan_step_idle (st : gmap Z Z * list Candidate) (tab : Tab) :
  tab ∈ allTabs ->
  st.1 !! tab_id tab = stamps !! tab_id tab ->
  Forall (fun c => idle_tab s now limitMs stamps allTabs (c_id c)) st.2 ->
  let st' := scan_step s now limitMs debounce st tab in
  Forall (fun c => idle_tab s now limitMs stamps allTabs (c_id c)) st'.2
  /\ forall i, i <> tab_id tab -> st'.1 !! i = st.1 !! i.
Proof.
  destruct st as [la cands]. simpl. intros Hin Hla Hc.
  unfold scan_step.
  destruct (tab_active tab) eqn:Hact.
  { destruct (negb _); simpl; split; auto. intros i Hi. by rewrite lookup_insert_ne. }
  destruct (isInternalUrl (tab_url tab)) eqn:Hint.
  { simpl; split; auto. intros i Hi. by rewrite lookup_insert_ne. }
  destruct (protectPinned s && tab_pinned tab) eqn:Hpin.
  { simpl; split; auto. intros i Hi. by rewrite lookup_insert_ne. }
  destruct (protectAudible s && tab_audible tab) eqn:Haud.
  { simpl; split; auto. intros i Hi. by rewrite lookup_insert_ne. }
  destruct (protectAllowlist s && allowlistEnabled s
            && (0 <? Z.of_nat (List.length (allowlist s)))
            && isUrlAllowed (tab_url tab) (Some (allowlist s))) eqn:Hlist.
  { simpl; split; auto. intros i Hi. by rewrite lookup_insert_ne. }
  destruct (la !! tab_id tab) as [ts|] eqn:Hts.
  2:{ simpl; split; auto. intros i Hi. by rewrite lookup_insert_ne. }
  destruct (Z.eqb_spec ts 0) as [Hz|Hnz].
  { simpl; split; auto. intros i Hi. by rewrite lookup_insert_ne. }
  destruct (Z.leb_spec limitMs (now - ts)) as [Hidle|Hfresh]; simpl; [|by split].
  split; [|done]. apply Forall_app. split; [done|].
  constructor; [|constructor]. simpl. exists tab, ts.
  split; [done|]. split; [done|]. split.
  - unfold spared. by rewrite Hact, Hint, Hpin, Haud, Hlist.
  - by rewrite <- Hla.
Qed.

Lemma scan_fold_idle (tabs : list Tab) (st : gmap Z Z * list Candidate) :
  NoDup (map tab_id tabs) ->
  Forall (fun t => t ∈ allTabs) tabs ->
  (forall t, t ∈ tabs -> st.1 !! tab_id t = stamps !! tab_id t) ->
  Forall (fun c => idle_tab s now limitMs stamps allTabs (c_id c)) st.2 ->
  Forall (fun c => idle_tab s now limitMs stamps allTabs (c_id c))
         (fold_left (scan_step s now limitMs debounce) tabs st).2.
Proof.
  revert st. induction tabs as [|tab tabs IH]; intros st Hnd Hin Hla Hc; [done|].
  apply NoDup_cons in Hnd as [Hfresh Hnd].
  apply Forall_cons in Hin as [Hin Hins].
  destruct (scan_step_idle st tab Hin (Hla tab ltac:(by left)) Hc) as [Hc' Hla'].
  cbn [fold_left]. apply IH; try done.
  intros t Ht. rewrite Hla'.
  - apply Hla. by right.
  - intros Heq. apply Hfresh. rewrite <- Heq. apply list_elem_of_fmap. by exists t.
Qed.

(** The closings keep the ids of the candidates. *)
Lemma accept_fold_ids (P : Z -> Prop) (minTabs : Z) (cands : list Candidate)
      (st : gmap Z Z * gmap Z Z * list Closing) :
  Forall (fun c => P (c_id c)) cands ->
  Forall (fun c => P (cl_id c)) st.2 ->
  Forall (fun c => P (cl_id c)) (fold_left (accept_step now minTabs allTabs) cands st).2.
Proof.
  intros Hc. revert st. induction Hc as [|c cands Hp _ IH]; intros st Hst; [done|].
  cbn [fold_left]. apply IH. destruct st as [[rem la] acc].
  unfold accept_step. destruct (at_floor _ _ _); [done|]. simpl in *.
  destruct (List.find _ allTabs); [|done].
  apply Forall_app. split; [done|]. by repeat constructor.
Qed.

End IdleScan.

(** Every closing of a pass names an idle tab that is not spared. *)
Lemma inactive_plan_idle `{UrlParser} (s : Settings) (now : Z) (debounce : option Z)
      (lastAccessedMap : gmap Z Z) (allTabs : list Tab) :
  NoDup (map tab_id allTabs) ->
  Forall (fun c => idle_tab s now (inactiveMinutes s * 60 * 1000)
                            (clamp_future now lastAccessedMap) allTabs (cl_id c))
         (inactive_plan s now debounce lastAccessedMap allTabs).2.
Proof.
  intros Hnd. unfold inactive_plan.
  destruct (fold_left _ allTabs _) as [la cands] eqn:Hscan.
  destruct (fold_left (accept_step _ _ _) _ _) as [[rem la'] acc] eqn:Hacc.
  simpl. change acc with ((rem, la', acc).2). rewrite <- Hacc.
  apply (accept_fold_ids now allTabs
           (idle_tab s now (inactiveMinutes s * 60 * 1000)
                     (clamp_future now lastAccessedMap) allTabs)); [|done].
  apply filter_Forall, sort_by_elapsed_Forall.
  change cands with ((la, cands).2). rewrite <- Hscan.
  apply scan_fold_idle; try done. apply Forall_forall. auto.
Qed.

Lemma without_gone (ids : list Z) (tabs : list Tab) (t : Tab) :
  t ∈ tabs -> t ∉ without ids tabs -> tab_id t ∈ ids.
Proof.
  intros Hin Hout. destruct (existsb (fun i => tab_id t =? i) ids) eqn:He.
  - apply existsb_exists in He as (i & Hi & Heq). apply Z.eqb_eq in Heq.
    rewrite Heq. by apply list_elem_of_In.
  - exfalso. apply Hout. apply list_elem_of_In, List.filter_In.
    split; [by apply list_elem_of_In | by rewrite He].
Qed.

(** With distinct tab ids, a tab that a pass of the reaper closes was not
    spared (not active, not internal, not protected as pinned, audible or
    allowlisted) and its last-accessed stamp, pulled back to now if it lay
    in the future, is at least [inactiveMinutes] old. *)
Theorem reaper_closes_only_idle_unprotected_tabs `{UrlParser}
        (clock : Clock) (w : World) (t : Tab) :
  NoDup (map tab_id (w_tabs w)) ->
  t ∈ w_tabs w ->
  t ∉ w_tabs (run (_doInactiveCheck clock) w) ->
  inactiveEnabled (w_settings w) = true
  /\ spared (w_settings w) t = false
  /\ exists ts,
      tabLastAccessed w !! tab_id t = Some ts
      /\ inactiveMinutes (w_settings w) * 60 * 1000 <= now clock - Z.min ts (now clock).
Proof.
  intros Hnd Hin Hout. rewrite doInactiveCheck_tabs in Hout.
  destruct (inactiveEnabled (w_settings w)); [|done]. split; [done|].
  apply without_gone in Hout; [|done].
  apply list_elem_of_fmap in Hout as (c & Hid & Hc).
  pose proof (inactive_plan_idle (w_settings w) (now clock) (activatedDebounceTabId w)
                                 (tabLastAccessed w) (w_tabs w) Hnd) as Hidle.
  rewrite Forall_forall in Hidle.
  destruct (Hidle c Hc) as (t' & ts' & Ht' & Hid' & Hsp & Hts & _ & Hold).
  assert (t' = t) as ->.
  { apply (NoDup_map_inj tab_id (w_tabs w)); try done. congruence. }
  split; [done|].
  unfold clamp_future in Hts. rewrite lookup_fmap, <- Hid in Hts.
  destruct (tabLastAccessed w !! tab_id t) as [ts|]; [|done].
  exists ts. split; [done|]. simpl in Hts. injection Hts as <-.
  destruct (Z.ltb_spec (now clock) ts); lia.
Qed.

Lemma reaper_closes_only_idle_unprotected_tabs_witness :
  let s := Sample.with_reaper 1 (Some 2) DEFAULT_SETTINGS in
  let w := set_tabLastAccessed (<[1 := 1000]> (<[2 := 1000]> (<[3 := 1000]> (∅ : gmap Z Z))))
             (Sample.world Sample.three_tabs s) in
  let t := Sample.page 1 1 "https://a.com/" in
  spared (H := simple_parser) s t = false
  /\ exists ts, tabLastAccessed w !! 1 = Some ts /\ 60000 <= now Sample.clock - ts.
Proof.
  intros s w t.
  destruct (reaper_closes_only_idle_unprotected_tabs (H := simple_parser) Sample.clock w t)
    as (_ & Hsp & ts & Hts & Hold).
  - simpl. repeat (apply NoDup_cons; split; [rewrite ?elem_of_cons, elem_of_nil; lia|]).
    apply NoDup_nil_2.
  - apply list_elem_of_In. left. reflexivity.
  - intros Hin. apply list_elem_of_In in Hin. vm_compute in Hin.
    destruct Hin as [E|[E|[]]]; discriminate E.
  - split; [exact Hsp|]. exists ts. split; [exact Hts|].
    assert (ts = 1000) as -> by (vm_compute in Hts; congruence).
    vm_compute. discriminate.
Defined.
